(** * pic-drm: the draft job lifecycle and the resumable upload tracker

    A shallow embedding of [src/routes/jobs.ts] over the tables of
    [migrations/0002_create_jobs.sql] and
    [migrations/0003_add_job_upload_tracking.sql].

    - The relational store (Cloudflare D1) is the three tables of the jobs and
      the [email] column of [users] that [jobs.user_email] refers to, each a
      list of rows in rowid order: an INSERT appends, an UPDATE rewrites rows in
      place, a SELECT without ORDER BY scans the table in that order.
    - The blob store (R2) is an association list from keys to bytes.
    - A route handler is a program in a state-and-exception monad over the two
      stores.  Every completed write is recorded in a trace, in the order of
      the handler's [await]s.
    - What the handlers cannot decide themselves is an input: the values of
      [crypto.randomUUID()], whether [BUCKET.put] resolves and whether
      [DB.batch] resolves. *)

From Stdlib Require Import String Ascii ZArith List Bool Lia Sorted.
From Stdlib Require Import Strings.Byte.
Import ListNotations.

Local Open Scope Z_scope.
Local Open Scope list_scope.

(** ** Rows of the relational store *)

(** Table [jobs] (the column [created_at] is never read or written by the
    handlers and is left out). *)
Module Jobs.
Record row : Type := mk
  { id : string;
    user_email : string;
    security_text : string;
    anti_screenshot : Z;
    anti_copy : Z;
    view_limit : Z;
    domain_restrict : Z;
    expiration : Z;
    status : string;
    total_files : Z;
    uploaded_files : Z }.

Definition set_status (v : string) (r : row) : row :=
  mk (id r) (user_email r) (security_text r) (anti_screenshot r) (anti_copy r)
     (view_limit r) (domain_restrict r) (expiration r) v (total_files r)
     (uploaded_files r).

Definition set_uploaded_files (v : Z) (r : row) : row :=
  mk (id r) (user_email r) (security_text r) (anti_screenshot r) (anti_copy r)
     (view_limit r) (domain_restrict r) (expiration r) (status r) (total_files r)
     v.
End Jobs.

(** Table [job_files]; the autoincremented [id] is the position in the list. *)
Module JobFiles.
Record row : Type := mk
  { job_id : string;
    original_name : string;
    folder_name : string;
    storage_key : string;
    size_bytes : Z;
    upload_status : string;
    file_index : Z }.

Definition set_upload_status (v : string) (r : row) : row :=
  mk (job_id r) (original_name r) (folder_name r) (storage_key r) (size_bytes r)
     v (file_index r).
End JobFiles.

(** Table [job_recipients]. *)
Module JobRecipients.
Record row : Type := mk
  { job_id : string;
    email : string;
    source : string }.
End JobRecipients.

(** ** The two stores *)

Definition Bytes : Type := list byte.

(** [users] is the column [users.email] ([migrations/0001_create_users.sql],
    UNIQUE): all that the job routes reach of that table, through the foreign
    key of [jobs.user_email].  Its rows are written by the sign-up route
    alone; the route itself is modelled in [Accounts] below. *)
Record Store : Type := mkStore
  { users : list string;
    jobs : list Jobs.row;
    job_files : list JobFiles.row;
    job_recipients : list JobRecipients.row;
    bucket : list (string * Bytes) }.

Definition empty_store : Store := mkStore [] [] [] [] [].

Definition with_users (t : list string) (s : Store) : Store :=
  mkStore t (jobs s) (job_files s) (job_recipients s) (bucket s).

Definition with_jobs (t : list Jobs.row) (s : Store) : Store :=
  mkStore (users s) t (job_files s) (job_recipients s) (bucket s).

Definition with_job_files (t : list JobFiles.row) (s : Store) : Store :=
  mkStore (users s) (jobs s) t (job_recipients s) (bucket s).

Definition with_job_recipients (t : list JobRecipients.row) (s : Store) : Store :=
  mkStore (users s) (jobs s) (job_files s) t (bucket s).

Definition with_bucket (b : list (string * Bytes)) (s : Store) : Store :=
  mkStore (users s) (jobs s) (job_files s) (job_recipients s) b.

(** R2: [put] overwrites, [get] reads the object under a key. *)
Definition bucket_get (key : string) (b : list (string * Bytes)) : option Bytes :=
  match find (fun kv => String.eqb (fst kv) key) b with
  | Some kv => Some (snd kv)
  | None => None
  end.

Definition bucket_put (key : string) (body : Bytes) (b : list (string * Bytes))
  : list (string * Bytes) :=
  (key, body) :: filter (fun kv => negb (String.eqb (fst kv) key)) b.

(** ** SQL over lists of rows *)

Section Sql.
Context {row : Type}.

(** [.first()]: the first row of a result, or null. *)
Definition first (rs : list row) : option row := hd_error rs.

(** [UPDATE t SET ... WHERE p]: the rows that satisfy [p] are rewritten. *)
Definition update_where (p : row -> bool) (f : row -> row) (t : list row) : list row :=
  map (fun r => if p r then f r else r) t.

(** [meta.changes] of that UPDATE: the number of rows it rewrote. *)
Definition changes_where (p : row -> bool) (t : list row) : Z :=
  Z.of_nat (length (filter p t)).
End Sql.

(** The write statements the handlers prepare, with their bound parameters. *)
Inductive Stmt : Type :=
| InsertJob (r : Jobs.row)
| InsertJobFile (r : JobFiles.row)
| InsertJobRecipient (r : JobRecipients.row)
| UpdateJobFileUploaded (jobId : string) (fileIndex : Z)
| IncrementUploadedFiles (jobId : string)
| UpdateJobStatus (jobId : string) (status : string).

Definition job_exists (jobId : string) (s : Store) : bool :=
  existsb (fun j => String.eqb (Jobs.id j) jobId) (jobs s).

Definition user_exists (userEmail : string) (s : Store) : bool :=
  existsb (fun e => String.eqb e userEmail) (users s).

(** [UPDATE job_files SET upload_status = 'uploaded'
     WHERE job_id = ? AND file_index = ? AND upload_status = 'pending'] *)
Definition pending_slot (jobId : string) (fileIndex : Z) (f : JobFiles.row) : bool :=
  String.eqb (JobFiles.job_id f) jobId
  && Z.eqb (JobFiles.file_index f) fileIndex
  && String.eqb (JobFiles.upload_status f) "pending".

Definition has_id (jobId : string) (j : Jobs.row) : bool :=
  String.eqb (Jobs.id j) jobId.

(** One statement on the store: the new store and [meta.changes], or [None]
    when a constraint rejects it ([jobs.id] is the PRIMARY KEY;
    [jobs.user_email] REFERENCES [users(email)]; [job_files.job_id] and
    [job_recipients.job_id] REFERENCE [jobs(id)]). *)
Definition exec (q : Stmt) (s : Store) : option (Store * Z) :=
  match q with
  | InsertJob r =>
      if job_exists (Jobs.id r) s then None
      else if user_exists (Jobs.user_email r) s
      then Some (with_jobs (jobs s ++ [r]) s, 1)
      else None
  | InsertJobFile r =>
      if job_exists (JobFiles.job_id r) s
      then Some (with_job_files (job_files s ++ [r]) s, 1)
      else None
  | InsertJobRecipient r =>
      if job_exists (JobRecipients.job_id r) s
      then Some (with_job_recipients (job_recipients s ++ [r]) s, 1)
      else None
  | UpdateJobFileUploaded jobId fileIndex =>
      Some (with_job_files
              (update_where (pending_slot jobId fileIndex)
                 (JobFiles.set_upload_status "uploaded") (job_files s)) s,
            changes_where (pending_slot jobId fileIndex) (job_files s))
  | IncrementUploadedFiles jobId =>
      Some (with_jobs
              (update_where (has_id jobId)
                 (fun j => Jobs.set_uploaded_files (Jobs.uploaded_files j + 1) j)
                 (jobs s)) s,
            changes_where (has_id jobId) (jobs s))
  | UpdateJobStatus jobId status =>
      Some (with_jobs
              (update_where (has_id jobId) (Jobs.set_status status) (jobs s)) s,
            changes_where (has_id jobId) (jobs s))
  end.

(** [DB.batch]: the statements run in order inside one transaction. *)
Fixpoint exec_all (qs : list Stmt) (s : Store) : option Store :=
  match qs with
  | [] => Some s
  | q :: qs' =>
      match exec q s with
      | Some (s', _) => exec_all qs' s'
      | None => None
      end
  end.

(** ** The handler monad *)

(** What a handler throws: Hono's [HTTPException], or the rejection of a store
    promise, which no handler catches. *)
Inductive Exn : Type :=
| HTTPException (status : Z) (message : string)
| StoreFailure.

(** A completed write. *)
Inductive Event : Type :=
| DbRun (q : Stmt) (changes : Z)
| DbBatch (qs : list Stmt)
| BucketPut (key : string) (body : Bytes).

Record Machine : Type := mkMachine
  { store : Store;
    trace : list Event }.

Definition M (A : Type) : Type := Machine -> (Exn + A) * Machine.

Definition ret {A} (a : A) : M A := fun m => (inr a, m).

Definition throw {A} (e : Exn) : M A := fun m => (inl e, m).

Definition bind {A B} (c : M A) (k : A -> M B) : M B :=
  fun m =>
    match c m with
    | (inr a, m') => k a m'
    | (inl e, m') => (inl e, m')
    end.

Declare Scope handler_scope.
Delimit Scope handler_scope with handler.
Notation "x <- c ;; k" := (bind c (fun x => k))
  (at level 61, c at next level, right associativity) : handler_scope.
Notation "c ;; k" := (bind c (fun _ => k))
  (at level 61, right associativity) : handler_scope.

(** [DB.prepare(sql).bind(...).first()] and [.all()]: a read. *)
Definition db_query {A} (q : Store -> A) : M A :=
  fun m => (inr (q (store m)), m).

(** [DB.prepare(sql).bind(...).run()]: resolves to [meta.changes]. *)
Definition db_run (q : Stmt) : M Z :=
  fun m =>
    match exec q (store m) with
    | Some (s', n) => (inr n, mkMachine s' (trace m ++ [DbRun q n]))
    | None => (inl StoreFailure, m)
    end.

(** [DB.batch(stmts)]: all of the statements or none. *)
Definition db_batch (resolves : bool) (qs : list Stmt) : M unit :=
  fun m =>
    match (if resolves then exec_all qs (store m) else None) with
    | Some s' => (inr tt, mkMachine s' (trace m ++ [DbBatch qs]))
    | None => (inl StoreFailure, m)
    end.

(** [BUCKET.put(key, body)]. *)
Definition r2_put (resolves : bool) (key : string) (body : Bytes) : M unit :=
  fun m =>
    if resolves
    then (inr tt, mkMachine (with_bucket (bucket_put key body (bucket (store m))) (store m))
                            (trace m ++ [BucketPut key body]))
    else (inl StoreFailure, m).

(** ** Requests and responses ([src/types/job.ts]) *)

Record SecurityOptions : Type := mkSecurityOptions
  { securityText : string;
    antiScreenshot : bool;
    antiCopy : bool;
    viewLimit : bool;
    domainRestrict : bool;
    expiration : bool }.

(** [source: z.enum(['direct', 'csv'])] *)
Inductive RecipientSource : Type := direct | csv.

Definition source_text (src : RecipientSource) : string :=
  match src with
  | direct => "direct"
  | csv => "csv"
  end.

Record Recipient : Type := mkRecipient
  { email : string;
    source : RecipientSource }.

Record DraftFileMetaItem : Type := mkDraftFileMetaItem
  { folderName : string;
    fileName : string;
    sizeBytes : Z }.

Record CreateDraftRequest : Type := mkCreateDraftRequest
  { security : SecurityOptions;
    recipients : list Recipient;
    fileMeta : list DraftFileMetaItem }.

(** A value of a multipart form: a string, or a [File] with its bytes. *)
Inductive FormDataEntryValue : Type :=
| FormString (s : string)
| FormFile (content : Bytes).

Definition FormData : Type := list (string * FormDataEntryValue).

(** [formData.get(name)]: the first value under [name], or null. *)
Definition formData_get (name : string) (fd : FormData) : option FormDataEntryValue :=
  match find (fun e => String.eqb (fst e) name) fd with
  | Some e => Some (snd e)
  | None => None
  end.

Inductive Body : Type :=
| CreateDraftResponse (jobId : string)
| UploadFileResponse (fileIndex uploadedFiles totalFiles : Z)
| SubmitJobResponse (jobId : string)
| JobStatusResponse (jobId status : string) (totalFiles uploadedFiles : Z)
    (pendingIndices : list Z)
| JobError (message : string)
| SchemaIssues (messages : list string)
| ParamIssues (params : list string).

(** [c.json(body, status)] *)
Record Response : Type := json
  { body : Body;
    code : Z }.

(** What a request ends in: the response the handler returned, or what it threw. *)
Definition Outcome : Type := (Exn + Response)%type.

(** The status line of an outcome: an [HTTPException] carries its own, any
    other exception is a 500. *)
Definition http_status (o : Outcome) : Z :=
  match o with
  | inr r => code r
  | inl (HTTPException st _) => st
  | inl StoreFailure => 500
  end.

(** What a request takes from outside the handler. *)
Record Env : Type := mkEnv
  { randomUUID : nat -> string;      (* the k-th [crypto.randomUUID()] of the request *)
    bucket_put_resolves : bool;      (* [await BUCKET.put(...)] *)
    db_batch_resolves : bool }.      (* [await DB.batch(...)] *)

(** ** The queries of the handlers *)

Section Join.
Context {A B : Type}.

(** [FROM ta a INNER JOIN tb b ON on a b], as nested loops. *)
Definition inner_join (on : A -> B -> bool) (ta : list A) (tb : list B) : list (A * B) :=
  flat_map (fun a => map (pair a) (filter (on a) tb)) ta.
End Join.

(** [SELECT jf.storage_key, jf.upload_status FROM job_files jf
     INNER JOIN jobs j ON j.id = jf.job_id
     WHERE jf.job_id = ? AND jf.file_index = ? AND j.user_email = ? AND j.status = 'draft'] *)
Definition select_fileRow (jobId : string) (fileIndex : Z) (userEmail : string)
  (s : Store) : option JobFiles.row :=
  option_map fst
    (first
       (filter
          (fun r : JobFiles.row * Jobs.row =>
             String.eqb (JobFiles.job_id (fst r)) jobId
             && Z.eqb (JobFiles.file_index (fst r)) fileIndex
             && String.eqb (Jobs.user_email (snd r)) userEmail
             && String.eqb (Jobs.status (snd r)) "draft")
          (inner_join (fun jf j => String.eqb (Jobs.id j) (JobFiles.job_id jf))
             (job_files s) (jobs s)))).

(** [SELECT total_files, uploaded_files FROM jobs WHERE id = ?] *)
Definition select_job (jobId : string) (s : Store) : option Jobs.row :=
  first (filter (has_id jobId) (jobs s)).

(** [SELECT total_files, uploaded_files, status FROM jobs WHERE id = ? AND user_email = ?] *)
Definition select_job_of (jobId userEmail : string) (s : Store) : option Jobs.row :=
  first (filter (fun j => has_id jobId j && String.eqb (Jobs.user_email j) userEmail)
           (jobs s)).

(** [SELECT file_index FROM job_files WHERE job_id = ? AND upload_status = 'pending'] *)
Definition select_pending (jobId : string) (s : Store) : list JobFiles.row :=
  filter (fun f => String.eqb (JobFiles.job_id f) jobId
                   && String.eqb (JobFiles.upload_status f) "pending")
    (job_files s).

(** ** The route handlers ([src/routes/jobs.ts]) *)

(** [array.map((x, i) => f(x, i))] *)
Fixpoint mapi_from {A B : Type} (i : nat) (f : A -> nat -> B) (l : list A) : list B :=
  match l with
  | [] => []
  | x :: l' => f x i :: mapi_from (S i) f l'
  end.

Definition mapi {A B : Type} (f : A -> nat -> B) (l : list A) : list B :=
  mapi_from 0 f l.

Definition flag (b : bool) : Z := if b then 1 else 0.

Definition dquote : string := String "034"%char EmptyString.

Local Open Scope handler_scope.

(** POST /jobs/draft *)
Definition createDraft (env : Env) (userEmail : string) (req : CreateDraftRequest)
  : M Response :=
  let jobId := randomUUID env 0 in
  let totalFiles := Z.of_nat (length (fileMeta req)) in
  let storageKeys :=
    mapi (fun meta i =>
            ("jobs/" ++ jobId ++ "/" ++ randomUUID env (S i) ++ "-" ++ fileName meta)%string)
      (fileMeta req) in
  _ <- db_run
         (InsertJob
            (Jobs.mk jobId userEmail (securityText (security req))
               (flag (antiScreenshot (security req)))
               (flag (antiCopy (security req)))
               (flag (viewLimit (security req)))
               (flag (domainRestrict (security req)))
               (flag (expiration (security req)))
               "draft" totalFiles 0)) ;;
  let fileInserts :=
    mapi (fun meta i =>
            InsertJobFile
              (JobFiles.mk jobId (fileName meta) (folderName meta)
                 (nth i storageKeys EmptyString) (sizeBytes meta) "pending"
                 (Z.of_nat i)))
      (fileMeta req) in
  let recipientInserts :=
    map (fun r => InsertJobRecipient
                    (JobRecipients.mk jobId (email r) (source_text (source r))))
      (recipients req) in
  db_batch (db_batch_resolves env) (fileInserts ++ recipientInserts) ;;
  ret (json (CreateDraftResponse jobId) 201).

(** PUT /jobs/{jobId}/files/{fileIndex} *)
Definition uploadFile (env : Env) (userEmail jobId : string) (fileIndex : Z)
  (formData : FormData) : M Response :=
  fileRow <- db_query (select_fileRow jobId fileIndex userEmail) ;;
  match fileRow with
  | None => throw (HTTPException 404 "File not found or job is not in draft state.")
  | Some fileRow =>
      match formData_get "file" formData with
      | None | Some (FormString _) =>
          throw (HTTPException 400 ("Missing " ++ dquote ++ "file" ++ dquote ++ " field.")%string)
      | Some (FormFile file) =>
          r2_put (bucket_put_resolves env) (JobFiles.storage_key fileRow) file ;;
          changes <- db_run (UpdateJobFileUploaded jobId fileIndex) ;;
          (if 0 <? changes
           then _ <- db_run (IncrementUploadedFiles jobId) ;; ret tt
           else ret tt) ;;
          jobRow <- db_query (select_job jobId) ;;
          match jobRow with
          | None => throw (HTTPException 500 "Failed to retrieve job state.")
          | Some jobRow =>
              ret (json (UploadFileResponse fileIndex (Jobs.uploaded_files jobRow)
                           (Jobs.total_files jobRow)) 200)
          end
      end
  end.

(** POST /jobs/{jobId}/submit *)
Definition submitJob (userEmail jobId : string) : M Response :=
  jobRow <- db_query (select_job_of jobId userEmail) ;;
  match jobRow with
  | None => throw (HTTPException 404 "Job not found.")
  | Some jobRow =>
      if negb (String.eqb (Jobs.status jobRow) "draft")
      then throw (HTTPException 400 "Already submitted.")
      else if Jobs.uploaded_files jobRow <? Jobs.total_files jobRow
      then throw (HTTPException 400 "Not all files have been uploaded yet.")
      else
        _ <- db_run (UpdateJobStatus jobId "pending") ;;
        ret (json (SubmitJobResponse jobId) 200)
  end.

(** GET /jobs/{jobId}/status *)
Definition getJobStatus (userEmail jobId : string) : M Response :=
  jobRow <- db_query (select_job_of jobId userEmail) ;;
  match jobRow with
  | None => throw (HTTPException 404 "Job not found.")
  | Some jobRow =>
      pendingResult <- db_query (select_pending jobId) ;;
      let pendingIndices := map JobFiles.file_index pendingResult in
      ret (json (JobStatusResponse jobId (Jobs.status jobRow) (Jobs.total_files jobRow)
                   (Jobs.uploaded_files jobRow) pendingIndices) 200)
  end.

(** POST /jobs/{jobId}/complete *)
Definition completeJob (userEmail jobId : string) : M Response :=
  jobRow <- db_query (select_job_of jobId userEmail) ;;
  match jobRow with
  | None => throw (HTTPException 404 "Job not found.")
  | Some jobRow =>
      if negb (String.eqb (Jobs.status jobRow) "pending")
      then throw (HTTPException 400 "Job is not in pending state.")
      else
        _ <- db_run (UpdateJobStatus jobId "completed") ;;
        ret (json (SubmitJobResponse jobId) 200)
  end.

(** ** Serving requests *)

(** A request as the route receives it, its path and body parsed: the caller
    is the subject of the verified token ([c.var.jwtPayload.sub]). *)
Inductive Request : Type :=
| PostDraft (userEmail : string) (req : CreateDraftRequest)
| PutFile (userEmail jobId : string) (fileIndex : Z) (formData : FormData)
| PostSubmit (userEmail jobId : string)
| GetStatus (userEmail jobId : string)
| PostComplete (userEmail jobId : string).

(** [CreateDraftRequestSchema]: the two [.min(1)] checks, with their messages.
    The validator of the route answers 400 before the handler runs.  The
    checks of single fields (e-mail syntax, positive sizes, UUID syntax of the
    path) touch no store and are left out. *)
Definition draft_issues (req : CreateDraftRequest) : list string :=
  (match recipients req with [] => ["At least one recipient is required."%string] | _ => [] end)
  ++ (match fileMeta req with [] => ["At least one file is required."%string] | _ => [] end).

(** [FileUploadParamSchema]: [fileIndex: z.coerce.number().int().min(0)].  The
    schema gives the check no message of its own, so the answer names the
    parameter.  [UploadFileBodySchema] is [file: z.any()], which refuses no
    form; the handler looks at the field itself. *)
Definition param_issues (fileIndex : Z) : list string :=
  if fileIndex <? 0 then ["fileIndex"%string] else [].

Definition handler (env : Env) (r : Request) : M Response :=
  match r with
  | PostDraft userEmail req =>
      match draft_issues req with
      | [] => createDraft env userEmail req
      | issues => ret (json (SchemaIssues issues) 400)
      end
  | PutFile userEmail jobId fileIndex formData =>
      match param_issues fileIndex with
      | [] => uploadFile env userEmail jobId fileIndex formData
      | params => ret (json (ParamIssues params) 400)
      end
  | PostSubmit userEmail jobId => submitJob userEmail jobId
  | GetStatus userEmail jobId => getJobStatus userEmail jobId
  | PostComplete userEmail jobId => completeJob userEmail jobId
  end.

(** One request against a store: its outcome, the store it leaves and the
    writes it made. *)
Definition run {A : Type} (c : M A) (s : Store) : (Exn + A) * Store * list Event :=
  let '(o, m) := c (mkMachine s []) in (o, store m, trace m).

Definition outcome_of {A : Type} (r : (Exn + A) * Store * list Event) : Exn + A :=
  fst (fst r).

Definition store_of {A : Type} (r : (Exn + A) * Store * list Event) : Store :=
  snd (fst r).

Definition trace_of {A : Type} (r : (Exn + A) * Store * list Event) : list Event :=
  snd r.

Definition serve (env : Env) (r : Request) (s : Store) : Store :=
  store_of (run (handler env r) s).

(** The stores the service can be in: it starts empty, the sign-up route adds
    an e-mail to [users], and the job routes serve requests one after the
    other, each to its end, whatever the blob store and the batch do. *)
Inductive Served : Store -> Prop :=
| Served_empty : Served empty_store
| Served_signup (s : Store) (userEmail : string) :
    Served s -> user_exists userEmail s = false ->
    Served (with_users (users s ++ [userEmail]) s)
| Served_serve (s : Store) (env : Env) (r : Request) :
    Served s -> Served (serve env r s).

(** The stores the service reaches while every [DB.batch] completes; whether
    a blob write does is free.  A store in which a registration stopped
    between its two writes is [Served] and not [Reach]. *)
Inductive Reach : Store -> Prop :=
| Reach_empty : Reach empty_store
| Reach_signup (s : Store) (userEmail : string) :
    Reach s -> user_exists userEmail s = false ->
    Reach (with_users (users s ++ [userEmail]) s)
| Reach_serve (s : Store) (env : Env) (r : Request) :
    Reach s -> db_batch_resolves env = true -> Reach (serve env r s).

(** ** Scenario A of the specification, run on the model *)

Definition uuids (k : nat) : string :=
  match k with
  | O => "job-1"
  | 1%nat => "k0"
  | 2%nat => "k1"
  | _ => "k2"
  end.

Definition env_ok : Env := mkEnv uuids true true.

Definition three_files : CreateDraftRequest :=
  mkCreateDraftRequest
    (mkSecurityOptions "SECURED" true false false false false)
    [mkRecipient "r@example.com" direct]
    [mkDraftFileMetaItem "a" "f0.png" 10;
     mkDraftFileMetaItem "a" "f1.png" 20;
     mkDraftFileMetaItem "b" "f2.png" 30].

Definition form_of (content : Bytes) : FormData := [("file"%string, FormFile content)].

(** The store after the sign-up of the scenario's user. *)
Definition signed_up : Store := with_users ["u@example.com"%string] empty_store.

Definition drafted : Store := serve env_ok (PostDraft "u@example.com" three_files) signed_up.

(** ** Consistency of a store *)

(** The JobFile rows of a job, in table order. *)
Definition files_of (jobId : string) (s : Store) : list JobFiles.row :=
  filter (fun f => String.eqb (JobFiles.job_id f) jobId) (job_files s).

Definition recipients_of (jobId : string) (s : Store) : list JobRecipients.row :=
  filter (fun r => String.eqb (JobRecipients.job_id r) jobId) (job_recipients s).

Definition is_uploaded (f : JobFiles.row) : bool :=
  String.eqb (JobFiles.upload_status f) "uploaded".

Definition is_pending (f : JobFiles.row) : bool :=
  String.eqb (JobFiles.upload_status f) "pending".

(** [count(JobFiles where status = uploaded)] of a job. *)
Definition uploaded_count (jobId : string) (s : Store) : Z :=
  Z.of_nat (length (filter is_uploaded (files_of jobId s))).

(** The indices [0, 1, ..., n-1]. *)
Definition iota (n : nat) : list Z := map Z.of_nat (seq 0 n).

Record Consistent (s : Store) : Prop := mkConsistent
  { ids_unique : NoDup (map Jobs.id (jobs s));
    files_have_job :
      forall f, In f (job_files s) -> job_exists (JobFiles.job_id f) s = true;
    recipients_have_job :
      forall r, In r (job_recipients s) -> job_exists (JobRecipients.job_id r) s = true;
    files_indexed :
      forall jobId,
        map JobFiles.file_index (files_of jobId s) = iota (length (files_of jobId s));
    files_total :
      forall j, In j (jobs s) ->
        files_of (Jobs.id j) s = []
        \/ Jobs.total_files j = Z.of_nat (length (files_of (Jobs.id j) s));
    total_counted :
      forall j, In j (jobs s) -> 0 <= Jobs.total_files j;
    files_status :
      forall f, In f (job_files s) ->
        JobFiles.upload_status f = "pending"%string
        \/ JobFiles.upload_status f = "uploaded"%string;
    counter_exact :
      forall j, In j (jobs s) ->
        Jobs.uploaded_files j = uploaded_count (Jobs.id j) s }.

(** ** Lists as tables *)

Section Tables.
Context {A : Type}.
Implicit Types (l : list A) (p q : A -> bool) (f : A -> A).

Lemma length_update_where q f l : length (update_where q f l) = length l.
Proof. apply length_map. Qed.

Lemma map_update_where {B : Type} (g : A -> B) q f l :
  (forall x, g (f x) = g x) -> map g (update_where q f l) = map g l.
Proof.
  intros Hg. unfold update_where. rewrite map_map.
  apply map_ext. intros x. destruct (q x); auto.
Qed.

Lemma filter_update_where p q f l :
  (forall x, p (f x) = p x) ->
  filter p (update_where q f l) = update_where q f (filter p l).
Proof.
  intros Hp. induction l as [|a l IH]; simpl; [reflexivity|].
  assert (Ha : p (if q a then f a else a) = p a) by (destruct (q a); auto).
  rewrite Ha. destruct (p a); simpl; rewrite IH; reflexivity.
Qed.

Lemma count_update_where (up : A -> bool) q f l :
  (forall x, q x = true -> up x = false) ->
  (forall x, q x = true -> up (f x) = true) ->
  (length (filter up (update_where q f l))
   = length (filter up l) + length (filter q l))%nat.
Proof.
  intros Hbefore Hafter. induction l as [|a l IH]; simpl; [reflexivity|].
  destruct (q a) eqn:Hq.
  - rewrite (Hafter a Hq), (Hbefore a Hq). simpl. rewrite IH. lia.
  - destruct (up a); simpl; rewrite IH; lia.
Qed.

Lemma update_where_settles q f l :
  (forall x, q (f x) = false) -> filter q (update_where q f l) = [].
Proof.
  intros Hq. induction l as [|a l IH]; simpl; [reflexivity|].
  destruct (q a) eqn:Ha.
  - rewrite Hq. exact IH.
  - rewrite Ha. exact IH.
Qed.

Lemma update_where_nothing q f l : filter q l = [] -> update_where q f l = l.
Proof.
  induction l as [|a l IH]; simpl; [reflexivity|].
  destruct (q a); [discriminate|]. intros H. rewrite (IH H). reflexivity.
Qed.

Lemma in_update_where q f l x :
  In x l -> In (if q x then f x else x) (update_where q f l).
Proof. intros H. unfold update_where. apply (in_map (fun r => if q r then f r else r)), H. Qed.

Lemma filter_twice p q l : filter p (filter q l) = filter (fun x => q x && p x) l.
Proof.
  induction l as [|a l IH]; simpl; [reflexivity|].
  destruct (q a); simpl; [destruct (p a)|]; rewrite IH; reflexivity.
Qed.

Lemma filter_length_le p l : (length (filter p l) <= length l)%nat.
Proof. induction l as [|a l IH]; simpl; [lia|]. destruct (p a); simpl; lia. Qed.

Lemma first_filter_found p l x : In x l -> p x = true -> first (filter p l) <> None.
Proof.
  intros Hin Hp. assert (H : In x (filter p l)) by (apply filter_In; auto).
  destruct (filter p l); [contradiction|discriminate].
Qed.

Lemma first_in l x : first l = Some x -> In x l.
Proof. destruct l; simpl; [discriminate|]. intros [= ->]. now left. Qed.

Section Keys.
Context {K : Type} (key : A -> K) (same : K -> K -> bool).
Hypothesis same_spec : forall a b, same a b = true <-> a = b.

Lemma key_absent_filter l k :
  ~ In k (map key l) -> filter (fun x => same (key x) k) l = [].
Proof.
  induction l as [|a l IH]; simpl; [reflexivity|]. intros H.
  destruct (same (key a) k) eqn:E.
  - apply same_spec in E. tauto.
  - apply IH. tauto.
Qed.

(** A key column without repetitions selects at most one row. *)
Lemma key_selects_one l a :
  NoDup (map key l) -> In a l -> filter (fun x => same (key x) (key a)) l = [a].
Proof.
  induction l as [|b l IH]; simpl; [contradiction|].
  intros Hnd Hin. apply NoDup_cons_iff in Hnd. destruct Hnd as [Hb Hnd].
  destruct Hin as [->|Hin].
  - rewrite (proj2 (same_spec _ _) eq_refl). f_equal.
    apply key_absent_filter, Hb.
  - destruct (same (key b) (key a)) eqn:E.
    + apply same_spec in E. exfalso. apply Hb. rewrite E. now apply in_map.
    + now apply IH.
Qed.

Lemma key_selects_at_most_one l k :
  NoDup (map key l) -> (length (filter (fun x => same (key x) k) l) <= 1)%nat.
Proof.
  intros Hnd.
  destruct (filter (fun x => same (key x) k) l) as [|a r] eqn:E; simpl; [lia|].
  assert (Ha : In a (filter (fun x => same (key x) k) l)) by (rewrite E; now left).
  apply filter_In in Ha. destruct Ha as [Hin Hk]. apply same_spec in Hk. subst k.
  rewrite (key_selects_one l a Hnd Hin) in E. injection E as <-. simpl. lia.
Qed.

Lemma key_determines_row l a b :
  NoDup (map key l) -> In a l -> In b l -> key a = key b -> a = b.
Proof.
  intros Hnd Ha Hb E.
  assert (H : In b (filter (fun x => same (key x) (key a)) l)).
  { apply filter_In. split; [exact Hb|]. apply same_spec. now symmetry. }
  rewrite (key_selects_one l a Hnd Ha) in H. destruct H as [H|[]]. exact H.
Qed.
End Keys.
End Tables.

(** ** Index lists *)

Lemma seq_strictly_sorted (a n : nat) : StronglySorted Z.lt (map Z.of_nat (seq a n)).
Proof.
  revert a. induction n as [|n IH]; intros a; simpl; constructor.
  - apply IH.
  - apply Forall_forall. intros x Hx. apply in_map_iff in Hx.
    destruct Hx as [k [<- Hk]]. apply in_seq in Hk. lia.
Qed.

Lemma strictly_sorted_NoDup (l : list Z) : StronglySorted Z.lt l -> NoDup l.
Proof.
  induction 1 as [|a l _ IH Hall]; constructor; [|exact IH].
  intros Hin. rewrite Forall_forall in Hall. specialize (Hall a Hin). lia.
Qed.

Lemma strictly_sorted_filter {A : Type} (g : A -> Z) (p : A -> bool) (l : list A) :
  StronglySorted Z.lt (map g l) -> StronglySorted Z.lt (map g (filter p l)).
Proof.
  induction l as [|a l IH]; simpl; intros H; [constructor|].
  apply StronglySorted_inv in H. destruct H as [Hl Ha].
  destruct (p a); simpl; [constructor|]; auto.
  rewrite Forall_forall in *. intros x Hx. apply Ha.
  apply in_map_iff in Hx. destruct Hx as [y [<- Hy]].
  apply in_map. apply filter_In in Hy. tauto.
Qed.

Lemma mapi_from_map {A B C : Type} (h : B -> C) (g : A -> nat -> B) (k : nat) (l : list A) :
  mapi_from k (fun x i => h (g x i)) l = map h (mapi_from k g l).
Proof.
  revert k. induction l as [|a l IH]; intros k; simpl; [reflexivity|].
  now rewrite IH.
Qed.

Lemma mapi_from_length {A B : Type} (g : A -> nat -> B) (k : nat) (l : list A) :
  length (mapi_from k g l) = length l.
Proof. revert k. induction l as [|a l IH]; intros k; simpl; auto. Qed.

Lemma mapi_from_index {A B : Type} (idx : B -> Z) (g : A -> nat -> B) (k : nat) (l : list A) :
  (forall x i, idx (g x i) = Z.of_nat i) ->
  map idx (mapi_from k g l) = map Z.of_nat (seq k (length l)).
Proof.
  intros Hg. revert k. induction l as [|a l IH]; intros k; simpl; [reflexivity|].
  now rewrite Hg, IH.
Qed.

Lemma mapi_from_all {A B : Type} (P : B -> Prop) (g : A -> nat -> B) (k : nat) (l : list A) :
  (forall x i, P (g x i)) -> Forall P (mapi_from k g l).
Proof.
  intros Hg. revert k. induction l as [|a l IH]; intros k; simpl; constructor; auto.
Qed.

(** ** Facts about the tables of a store *)

Lemma job_exists_iff (jobId : string) (s : Store) :
  job_exists jobId s = true <-> In jobId (map Jobs.id (jobs s)).
Proof.
  unfold job_exists. rewrite existsb_exists, in_map_iff. split.
  - intros [j [Hin E]]. apply String.eqb_eq in E. eauto.
  - intros [j [E Hin]]. exists j. split; [exact Hin|]. now apply String.eqb_eq.
Qed.

Lemma job_exists_in (j : Jobs.row) (s : Store) :
  In j (jobs s) -> job_exists (Jobs.id j) s = true.
Proof. intros H. apply job_exists_iff. now apply in_map. Qed.

Lemma job_absent_iff (jobId : string) (s : Store) :
  job_exists jobId s = false <-> ~ In jobId (map Jobs.id (jobs s)).
Proof.
  rewrite <- job_exists_iff. destruct (job_exists jobId s); split; intros H;
    try discriminate; try reflexivity; try (intros H'; discriminate).
  exfalso. now apply H.
Qed.

Lemma Consistent_tables (s s' : Store) :
  jobs s' = jobs s -> job_files s' = job_files s ->
  job_recipients s' = job_recipients s -> Consistent s -> Consistent s'.
Proof.
  destruct s as [us js fs rs b], s' as [us' js' fs' rs' b']. simpl.
  intros -> -> -> [H1 H2 H3 H4 H5 H6 H7 H8]. constructor; assumption.
Qed.

Lemma ids_determine_job (s : Store) (j j' : Jobs.row) :
  NoDup (map Jobs.id (jobs s)) -> In j (jobs s) -> In j' (jobs s) ->
  Jobs.id j = Jobs.id j' -> j = j'.
Proof. apply (key_determines_row Jobs.id String.eqb String.eqb_eq). Qed.

Lemma select_job_found (s : Store) (j : Jobs.row) :
  NoDup (map Jobs.id (jobs s)) -> In j (jobs s) -> select_job (Jobs.id j) s = Some j.
Proof.
  intros Hnd Hin. unfold select_job, has_id.
  now rewrite (key_selects_one Jobs.id String.eqb String.eqb_eq _ _ Hnd Hin).
Qed.

Lemma select_job_of_owner (s : Store) (j : Jobs.row) :
  NoDup (map Jobs.id (jobs s)) -> In j (jobs s) ->
  select_job_of (Jobs.id j) (Jobs.user_email j) s = Some j.
Proof.
  intros Hnd Hin. unfold select_job_of.
  rewrite <- (filter_twice (fun j' => String.eqb (Jobs.user_email j') (Jobs.user_email j))
                (has_id (Jobs.id j))).
  unfold has_id at 1.
  rewrite (key_selects_one Jobs.id String.eqb String.eqb_eq _ _ Hnd Hin). simpl.
  now rewrite String.eqb_refl.
Qed.

Lemma select_job_of_other (s : Store) (j : Jobs.row) (userEmail : string) :
  NoDup (map Jobs.id (jobs s)) -> In j (jobs s) -> Jobs.user_email j <> userEmail ->
  select_job_of (Jobs.id j) userEmail s = None.
Proof.
  intros Hnd Hin Hne. unfold select_job_of.
  rewrite <- (filter_twice (fun j' => String.eqb (Jobs.user_email j') userEmail)
                (has_id (Jobs.id j))).
  unfold has_id at 1.
  rewrite (key_selects_one Jobs.id String.eqb String.eqb_eq _ _ Hnd Hin). simpl.
  apply String.eqb_neq in Hne. now rewrite Hne.
Qed.

Lemma select_job_of_absent (s : Store) (jobId userEmail : string) :
  job_exists jobId s = false -> select_job_of jobId userEmail s = None.
Proof.
  intros Habs. apply job_absent_iff in Habs. unfold select_job_of.
  rewrite <- (filter_twice (fun j' => String.eqb (Jobs.user_email j') userEmail)
                (has_id jobId)).
  unfold has_id at 1.
  now rewrite (key_absent_filter Jobs.id String.eqb String.eqb_eq _ _ Habs).
Qed.

(** ** What each handler does to a store *)

Definition file_not_found : Exn :=
  HTTPException 404 "File not found or job is not in draft state.".

Definition missing_file_field : Exn :=
  HTTPException 400 ("Missing " ++ dquote ++ "file" ++ dquote ++ " field.")%string.

Definition retrieve_failed : Exn := HTTPException 500 "Failed to retrieve job state.".

Definition job_not_found : Exn := HTTPException 404 "Job not found.".

Definition already_submitted : Exn := HTTPException 400 "Already submitted.".

Definition not_all_uploaded : Exn :=
  HTTPException 400 "Not all files have been uploaded yet.".

Definition not_pending : Exn := HTTPException 400 "Job is not in pending state.".

(** The two UPDATEs of the upload handler, on their tables. *)
Definition flip_slot (jobId : string) (fileIndex : Z) (t : list JobFiles.row)
  : list JobFiles.row :=
  update_where (pending_slot jobId fileIndex) (JobFiles.set_upload_status "uploaded") t.

Definition count_up (jobId : string) (t : list Jobs.row) : list Jobs.row :=
  update_where (has_id jobId)
    (fun j => Jobs.set_uploaded_files (Jobs.uploaded_files j + 1) j) t.

(** The store an upload leaves once its blob write has resolved. *)
Definition uploaded_store (jobId : string) (fileIndex : Z) (key : string) (file : Bytes)
  (s : Store) : Store :=
  mkStore (users s)
    (if 0 <? changes_where (pending_slot jobId fileIndex) (job_files s)
     then count_up jobId (jobs s) else jobs s)
    (flip_slot jobId fileIndex (job_files s))
    (job_recipients s)
    (bucket_put key file (bucket s)).

Definition uploaded_trace (jobId : string) (fileIndex : Z) (key : string) (file : Bytes)
  (s : Store) : list Event :=
  let n := changes_where (pending_slot jobId fileIndex) (job_files s) in
  BucketPut key file
  :: DbRun (UpdateJobFileUploaded jobId fileIndex) n
  :: (if 0 <? n
      then [DbRun (IncrementUploadedFiles jobId) (changes_where (has_id jobId) (jobs s))]
      else []).

Lemma uploadFile_run (env : Env) (userEmail jobId : string) (fileIndex : Z)
  (formData : FormData) (s : Store) :
  run (uploadFile env userEmail jobId fileIndex formData) s =
  match select_fileRow jobId fileIndex userEmail s with
  | None => (inl file_not_found, s, [])
  | Some fileRow =>
      match formData_get "file" formData with
      | Some (FormFile file) =>
          if bucket_put_resolves env
          then
            let s' := uploaded_store jobId fileIndex (JobFiles.storage_key fileRow) file s in
            (match select_job jobId s' with
             | None => inl retrieve_failed
             | Some jobRow =>
                 inr (json (UploadFileResponse fileIndex (Jobs.uploaded_files jobRow)
                              (Jobs.total_files jobRow)) 200)
             end,
             s',
             uploaded_trace jobId fileIndex (JobFiles.storage_key fileRow) file s)
          else (inl StoreFailure, s, [])
      | _ => (inl missing_file_field, s, [])
      end
  end.
Proof.
  unfold run, uploadFile, bind, db_query, db_run, r2_put, throw, ret. simpl.
  destruct (select_fileRow jobId fileIndex userEmail s) as [fileRow|]; [|reflexivity].
  destruct (formData_get "file" formData) as [[str|file]|]; try reflexivity.
  destruct (bucket_put_resolves env); [|reflexivity]. simpl.
  unfold uploaded_store, uploaded_trace, select_job, count_up, flip_slot. simpl.
  destruct (0 <? changes_where (pending_slot jobId fileIndex) (job_files s)); simpl.
  - destruct (first (filter (has_id jobId) (update_where (has_id jobId) _ (jobs s))));
      reflexivity.
  - destruct (first (filter (has_id jobId) (jobs s))); reflexivity.
Qed.

Lemma submitJob_run (userEmail jobId : string) (s : Store) :
  run (submitJob userEmail jobId) s =
  match select_job_of jobId userEmail s with
  | None => (inl job_not_found, s, [])
  | Some jobRow =>
      if negb (String.eqb (Jobs.status jobRow) "draft")
      then (inl already_submitted, s, [])
      else if Jobs.uploaded_files jobRow <? Jobs.total_files jobRow
      then (inl not_all_uploaded, s, [])
      else (inr (json (SubmitJobResponse jobId) 200),
            with_jobs (update_where (has_id jobId) (Jobs.set_status "pending") (jobs s)) s,
            [DbRun (UpdateJobStatus jobId "pending") (changes_where (has_id jobId) (jobs s))])
  end.
Proof.
  unfold run, submitJob, bind, db_query, db_run, throw, ret. simpl.
  destruct (select_job_of jobId userEmail s) as [jobRow|]; [|reflexivity].
  destruct (negb (String.eqb (Jobs.status jobRow) "draft")); [reflexivity|].
  destruct (Jobs.uploaded_files jobRow <? Jobs.total_files jobRow); reflexivity.
Qed.

Lemma completeJob_run (userEmail jobId : string) (s : Store) :
  run (completeJob userEmail jobId) s =
  match select_job_of jobId userEmail s with
  | None => (inl job_not_found, s, [])
  | Some jobRow =>
      if negb (String.eqb (Jobs.status jobRow) "pending")
      then (inl not_pending, s, [])
      else (inr (json (SubmitJobResponse jobId) 200),
            with_jobs (update_where (has_id jobId) (Jobs.set_status "completed") (jobs s)) s,
            [DbRun (UpdateJobStatus jobId "completed") (changes_where (has_id jobId) (jobs s))])
  end.
Proof.
  unfold run, completeJob, bind, db_query, db_run, throw, ret. simpl.
  destruct (select_job_of jobId userEmail s) as [jobRow|]; [|reflexivity].
  destruct (negb (String.eqb (Jobs.status jobRow) "pending")); reflexivity.
Qed.

Lemma getJobStatus_run (userEmail jobId : string) (s : Store) :
  run (getJobStatus userEmail jobId) s =
  match select_job_of jobId userEmail s with
  | None => (inl job_not_found, s, [])
  | Some jobRow =>
      (inr (json (JobStatusResponse jobId (Jobs.status jobRow) (Jobs.total_files jobRow)
                    (Jobs.uploaded_files jobRow)
                    (map JobFiles.file_index (select_pending jobId s))) 200),
       s, [])
  end.
Proof.
  unfold run, getJobStatus, bind, db_query, throw, ret. simpl.
  destruct (select_job_of jobId userEmail s) as [jobRow|]; reflexivity.
Qed.

(** The rows a draft registration binds to its INSERT statements. *)
Definition draft_job (env : Env) (userEmail : string) (req : CreateDraftRequest) : Jobs.row :=
  Jobs.mk (randomUUID env 0) userEmail (securityText (security req))
    (flag (antiScreenshot (security req))) (flag (antiCopy (security req)))
    (flag (viewLimit (security req))) (flag (domainRestrict (security req)))
    (flag (expiration (security req))) "draft" (Z.of_nat (length (fileMeta req))) 0.

Definition draft_keys (env : Env) (req : CreateDraftRequest) : list string :=
  mapi (fun meta i =>
          ("jobs/" ++ randomUUID env 0 ++ "/" ++ randomUUID env (S i) ++ "-"
             ++ fileName meta)%string)
    (fileMeta req).

Definition draft_files (env : Env) (req : CreateDraftRequest) : list JobFiles.row :=
  mapi (fun meta i =>
          JobFiles.mk (randomUUID env 0) (fileName meta) (folderName meta)
            (nth i (draft_keys env req) EmptyString) (sizeBytes meta) "pending"
            (Z.of_nat i))
    (fileMeta req).

Definition draft_recipients (env : Env) (req : CreateDraftRequest) : list JobRecipients.row :=
  map (fun r => JobRecipients.mk (randomUUID env 0) (email r) (source_text (source r)))
    (recipients req).

Definition draft_batch (env : Env) (req : CreateDraftRequest) : list Stmt :=
  map InsertJobFile (draft_files env req)
  ++ map InsertJobRecipient (draft_recipients env req).

(** The store once the job row and the batch are both written. *)
Definition drafted_store (env : Env) (userEmail : string) (req : CreateDraftRequest)
  (s : Store) : Store :=
  mkStore (users s) (jobs s ++ [draft_job env userEmail req])
    (job_files s ++ draft_files env req)
    (job_recipients s ++ draft_recipients env req)
    (bucket s).

Lemma exec_all_recipients (jobId : string) (recs : list JobRecipients.row) (s : Store) :
  job_exists jobId s = true ->
  Forall (fun r => JobRecipients.job_id r = jobId) recs ->
  exec_all (map InsertJobRecipient recs) s
  = Some (mkStore (users s) (jobs s) (job_files s) (job_recipients s ++ recs) (bucket s)).
Proof.
  intros Hj Hall. revert s Hj.
  induction Hall as [|r recs Hr _ IH]; intros s Hj; simpl.
  - rewrite app_nil_r. now destruct s.
  - rewrite Hr, Hj. rewrite IH by exact Hj. simpl.
    now rewrite <- app_assoc.
Qed.

Lemma exec_all_inserts (jobId : string) (files : list JobFiles.row)
  (recs : list JobRecipients.row) (s : Store) :
  job_exists jobId s = true ->
  Forall (fun f => JobFiles.job_id f = jobId) files ->
  Forall (fun r => JobRecipients.job_id r = jobId) recs ->
  exec_all (map InsertJobFile files ++ map InsertJobRecipient recs) s
  = Some (mkStore (users s) (jobs s) (job_files s ++ files) (job_recipients s ++ recs)
            (bucket s)).
Proof.
  intros Hj Hall Hrecs. revert s Hj.
  induction Hall as [|f files Hf _ IH]; intros s Hj; simpl.
  - rewrite (exec_all_recipients jobId) by assumption. now rewrite app_nil_r.
  - rewrite Hf, Hj. rewrite IH by exact Hj. simpl.
    now rewrite <- app_assoc.
Qed.

Lemma draft_files_job (env : Env) (req : CreateDraftRequest) :
  Forall (fun f => JobFiles.job_id f = randomUUID env 0) (draft_files env req).
Proof. apply mapi_from_all. reflexivity. Qed.

Lemma draft_files_pending (env : Env) (req : CreateDraftRequest) :
  Forall (fun f => JobFiles.upload_status f = "pending"%string) (draft_files env req).
Proof. apply mapi_from_all. reflexivity. Qed.

Lemma draft_files_index (env : Env) (req : CreateDraftRequest) :
  map JobFiles.file_index (draft_files env req) = iota (length (fileMeta req)).
Proof. apply mapi_from_index. reflexivity. Qed.

Lemma draft_files_length (env : Env) (req : CreateDraftRequest) :
  length (draft_files env req) = length (fileMeta req).
Proof. apply mapi_from_length. Qed.

Lemma draft_recipients_job (env : Env) (req : CreateDraftRequest) :
  Forall (fun r => JobRecipients.job_id r = randomUUID env 0) (draft_recipients env req).
Proof. apply Forall_forall. intros r Hr. apply in_map_iff in Hr. now destruct Hr as [x [<- _]]. Qed.

Lemma createDraft_run (env : Env) (userEmail : string) (req : CreateDraftRequest) (s : Store) :
  run (createDraft env userEmail req) s =
  if job_exists (randomUUID env 0) s
  then (inl StoreFailure, s, [])
  else if negb (user_exists userEmail s)
  then (inl StoreFailure, s, [])
  else if db_batch_resolves env
  then (inr (json (CreateDraftResponse (randomUUID env 0)) 201),
        drafted_store env userEmail req s,
        [DbRun (InsertJob (draft_job env userEmail req)) 1; DbBatch (draft_batch env req)])
  else (inl StoreFailure,
        with_jobs (jobs s ++ [draft_job env userEmail req]) s,
        [DbRun (InsertJob (draft_job env userEmail req)) 1]).
Proof.
  unfold run, createDraft, bind, db_run, db_batch, ret. simpl.
  fold (draft_job env userEmail req). fold (draft_keys env req).
  destruct (job_exists (randomUUID env 0) s) eqn:Hfresh; [reflexivity|]. simpl.
  destruct (user_exists userEmail s) eqn:Huser; [|reflexivity]. simpl.
  destruct (db_batch_resolves env); [|reflexivity].
  unfold mapi.
  rewrite (mapi_from_map InsertJobFile
             (fun meta i =>
                JobFiles.mk (randomUUID env 0) (fileName meta) (folderName meta)
                  (nth i (draft_keys env req) EmptyString) (sizeBytes meta) "pending"
                  (Z.of_nat i))).
  rewrite <- (map_map
                (fun r => JobRecipients.mk (randomUUID env 0) (email r) (source_text (source r)))
                InsertJobRecipient).
  fold (mapi (fun meta i =>
                JobFiles.mk (randomUUID env 0) (fileName meta) (folderName meta)
                  (nth i (draft_keys env req) EmptyString) (sizeBytes meta) "pending"
                  (Z.of_nat i)) (fileMeta req)).
  fold (draft_files env req). fold (draft_recipients env req).
  rewrite (exec_all_inserts (randomUUID env 0)).
  - reflexivity.
  - unfold job_exists. simpl. rewrite existsb_app. simpl.
    rewrite String.eqb_refl. apply orb_true_iff. right. reflexivity.
  - apply draft_files_job.
  - apply draft_recipients_job.
Qed.

(** ** The handlers keep a store consistent *)

Lemma filter_none {A : Type} (p : A -> bool) (l : list A) :
  (forall x, In x l -> p x = false) -> filter p l = [].
Proof.
  induction l as [|a l IH]; simpl; intros H; [reflexivity|].
  rewrite (H a) by now left. apply IH. intros x Hx. apply H. now right.
Qed.

Lemma filter_all {A : Type} (p : A -> bool) (l : list A) :
  (forall x, In x l -> p x = true) -> filter p l = l.
Proof.
  induction l as [|a l IH]; simpl; intros H; [reflexivity|].
  rewrite (H a) by now left. f_equal. apply IH. intros x Hx. apply H. now right.
Qed.

Lemma job_exists_same_ids (jobId : string) (s s' : Store) :
  map Jobs.id (jobs s') = map Jobs.id (jobs s) -> job_exists jobId s' = job_exists jobId s.
Proof.
  intros E. destruct (job_exists jobId s) eqn:Hs.
  - apply job_exists_iff. rewrite E. now apply job_exists_iff.
  - apply job_absent_iff. rewrite E. now apply job_absent_iff.
Qed.

Lemma files_of_absent (jobId : string) (s : Store) :
  Consistent s -> job_exists jobId s = false -> files_of jobId s = [].
Proof.
  intros C Habs. apply filter_none. intros f Hf.
  apply String.eqb_neq. intros E.
  pose proof (files_have_job s C f Hf) as H. rewrite E in H. congruence.
Qed.

Lemma recipients_of_absent (jobId : string) (s : Store) :
  Consistent s -> job_exists jobId s = false -> recipients_of jobId s = [].
Proof.
  intros C Habs. apply filter_none. intros r Hr.
  apply String.eqb_neq. intros E.
  pose proof (recipients_have_job s C r Hr) as H. rewrite E in H. congruence.
Qed.

Section Drafted.
Variables (env : Env) (userEmail : string) (req : CreateDraftRequest) (s : Store).
Hypothesis consistent : Consistent s.
Hypothesis fresh : job_exists (randomUUID env 0) s = false.

Let s' : Store := drafted_store env userEmail req s.

Lemma job_exists_drafted (jobId : string) :
  job_exists jobId s' = job_exists jobId s || String.eqb (randomUUID env 0) jobId.
Proof.
  unfold job_exists, s'. simpl. rewrite existsb_app. simpl. now rewrite orb_false_r.
Qed.

Lemma files_of_drafted (jobId : string) :
  files_of jobId s'
  = if String.eqb jobId (randomUUID env 0) then draft_files env req else files_of jobId s.
Proof.
  unfold files_of, s'. simpl. rewrite filter_app.
  destruct (String.eqb jobId (randomUUID env 0)) eqn:E.
  - apply String.eqb_eq in E. subst jobId.
    change (filter (fun f => String.eqb (JobFiles.job_id f) (randomUUID env 0)) (job_files s))
      with (files_of (randomUUID env 0) s).
    rewrite (files_of_absent _ _ consistent fresh). simpl.
    apply filter_all. intros f Hf. apply String.eqb_eq.
    pose proof (draft_files_job env req) as H. rewrite Forall_forall in H. now apply H.
  - rewrite (filter_none _ (draft_files env req)); [apply app_nil_r|].
    intros f Hf. pose proof (draft_files_job env req) as H. rewrite Forall_forall in H.
    rewrite (H f Hf). now rewrite String.eqb_sym.
Qed.

Lemma old_job_not_fresh (j : Jobs.row) :
  In j (jobs s) -> String.eqb (Jobs.id j) (randomUUID env 0) = false.
Proof.
  intros Hj. apply String.eqb_neq. intros E.
  pose proof (job_exists_in j s Hj) as H. rewrite E in H. congruence.
Qed.

Lemma draft_files_none_uploaded : filter is_uploaded (draft_files env req) = [].
Proof.
  apply filter_none. intros f Hf. unfold is_uploaded.
  pose proof (draft_files_pending env req) as H. rewrite Forall_forall in H.
  now rewrite (H f Hf).
Qed.

Lemma Consistent_drafted : Consistent s'.
Proof.
  constructor.
  - unfold s'. simpl. rewrite map_app. apply NoDup_app.
    + apply (ids_unique s consistent).
    + simpl. constructor; [intros []|constructor].
    + intros a Ha [<-|[]]. apply job_absent_iff in fresh. now apply fresh.
  - intros f Hf. rewrite job_exists_drafted. apply orb_true_iff.
    unfold s' in Hf. simpl in Hf. apply in_app_or in Hf. destruct Hf as [Hf|Hf].
    + left. now apply (files_have_job s consistent).
    + right. pose proof (draft_files_job env req) as H. rewrite Forall_forall in H.
      rewrite (H f Hf). apply String.eqb_refl.
  - intros r Hr. rewrite job_exists_drafted. apply orb_true_iff.
    unfold s' in Hr. simpl in Hr. apply in_app_or in Hr. destruct Hr as [Hr|Hr].
    + left. now apply (recipients_have_job s consistent).
    + right. pose proof (draft_recipients_job env req) as H. rewrite Forall_forall in H.
      rewrite (H r Hr). apply String.eqb_refl.
  - intros jobId. rewrite files_of_drafted.
    destruct (String.eqb jobId (randomUUID env 0)).
    + now rewrite draft_files_index, draft_files_length.
    + apply (files_indexed s consistent).
  - intros j Hj. rewrite files_of_drafted.
    unfold s' in Hj. simpl in Hj. apply in_app_or in Hj. destruct Hj as [Hj|[<-|[]]].
    + rewrite (old_job_not_fresh j Hj). now apply (files_total s consistent).
    + right. simpl. now rewrite String.eqb_refl, draft_files_length.
  - intros j Hj. unfold s' in Hj. simpl in Hj. apply in_app_or in Hj.
    destruct Hj as [Hj|[<-|[]]]; [now apply (total_counted s consistent)|simpl; lia].
  - intros f Hf. unfold s' in Hf. simpl in Hf. apply in_app_or in Hf.
    destruct Hf as [Hf|Hf].
    + now apply (files_status s consistent).
    + left. pose proof (draft_files_pending env req) as H. rewrite Forall_forall in H.
      now apply H.
  - intros j Hj. unfold uploaded_count. rewrite files_of_drafted.
    unfold s' in Hj. simpl in Hj. apply in_app_or in Hj. destruct Hj as [Hj|[<-|[]]].
    + rewrite (old_job_not_fresh j Hj). now apply (counter_exact s consistent).
    + simpl. now rewrite String.eqb_refl, draft_files_none_uploaded.
Qed.

(** The store between the two writes of a registration: the job row alone. *)
Lemma Consistent_job_alone :
  Consistent (with_jobs (jobs s ++ [draft_job env userEmail req]) s).
Proof.
  set (s1 := with_jobs (jobs s ++ [draft_job env userEmail req]) s).
  assert (Hfiles : forall jobId, files_of jobId s1 = files_of jobId s) by reflexivity.
  assert (Hex : forall jobId, job_exists jobId s = true -> job_exists jobId s1 = true).
  { intros jobId H. unfold job_exists, s1. simpl. rewrite existsb_app.
    apply orb_true_iff. now left. }
  constructor.
  - unfold s1. simpl. rewrite map_app. apply NoDup_app.
    + apply (ids_unique s consistent).
    + simpl. constructor; [intros []|constructor].
    + intros a Ha [<-|[]]. apply job_absent_iff in fresh. now apply fresh.
  - intros f Hf. apply Hex. now apply (files_have_job s consistent).
  - intros r Hr. apply Hex. now apply (recipients_have_job s consistent).
  - intros jobId. rewrite Hfiles. apply (files_indexed s consistent).
  - intros j Hj. rewrite Hfiles. unfold s1 in Hj. simpl in Hj. apply in_app_or in Hj.
    destruct Hj as [Hj|[<-|[]]].
    + now apply (files_total s consistent).
    + left. apply (files_of_absent _ _ consistent fresh).
  - intros j Hj. unfold s1 in Hj. simpl in Hj. apply in_app_or in Hj.
    destruct Hj as [Hj|[<-|[]]]; [now apply (total_counted s consistent)|simpl; lia].
  - apply (files_status s consistent).
  - intros j Hj. unfold uploaded_count. rewrite Hfiles.
    unfold s1 in Hj. simpl in Hj. apply in_app_or in Hj. destruct Hj as [Hj|[<-|[]]].
    + now apply (counter_exact s consistent).
    + simpl. now rewrite (files_of_absent _ _ consistent fresh).
Qed.
End Drafted.

Lemma set_uploaded_not_pending (jobId : string) (fileIndex : Z) (f : JobFiles.row) :
  pending_slot jobId fileIndex (JobFiles.set_upload_status "uploaded" f) = false.
Proof. unfold pending_slot. simpl. apply andb_false_r. Qed.

Lemma pending_slot_true (jobId : string) (fileIndex : Z) (f : JobFiles.row) :
  pending_slot jobId fileIndex f = true <->
  JobFiles.job_id f = jobId /\ JobFiles.file_index f = fileIndex
  /\ JobFiles.upload_status f = "pending"%string.
Proof.
  unfold pending_slot. rewrite !andb_true_iff, !String.eqb_eq, Z.eqb_eq. tauto.
Qed.

Lemma files_of_flip (jobId jid : string) (fileIndex : Z) (s s' : Store) :
  job_files s' = flip_slot jobId fileIndex (job_files s) ->
  files_of jid s' = flip_slot jobId fileIndex (files_of jid s).
Proof.
  intros E. unfold files_of. rewrite E. unfold flip_slot.
  apply filter_update_where. reflexivity.
Qed.

Lemma pending_slot_of_job (jobId jid : string) (fileIndex : Z) (s : Store) :
  filter (pending_slot jobId fileIndex) (files_of jid s)
  = if String.eqb jid jobId then filter (pending_slot jobId fileIndex) (job_files s) else [].
Proof.
  unfold files_of. rewrite filter_twice.
  destruct (String.eqb jid jobId) eqn:E.
  - apply String.eqb_eq in E. subst jid. apply filter_ext. intros f.
    unfold pending_slot. destruct (String.eqb (JobFiles.job_id f) jobId); reflexivity.
  - apply filter_none. intros f _. unfold pending_slot.
    destruct (String.eqb (JobFiles.job_id f) jid) eqn:E1; [|reflexivity].
    apply String.eqb_eq in E1. rewrite E1, E. reflexivity.
Qed.

Lemma indices_unique (jobId : string) (s : Store) :
  Consistent s -> NoDup (map JobFiles.file_index (files_of jobId s)).
Proof.
  intros C. rewrite (files_indexed s C). apply strictly_sorted_NoDup, seq_strictly_sorted.
Qed.

(** A slot is one row: the guarded UPDATE changes at most one. *)
Lemma pending_slot_at_most_one (jobId : string) (fileIndex : Z) (s : Store) :
  Consistent s -> (length (filter (pending_slot jobId fileIndex) (job_files s)) <= 1)%nat.
Proof.
  intros C.
  pose proof (pending_slot_of_job jobId jobId fileIndex s) as E.
  rewrite String.eqb_refl in E. rewrite <- E.
  rewrite (filter_ext (pending_slot jobId fileIndex)
             (fun f => Z.eqb (JobFiles.file_index f) fileIndex
                       && (String.eqb (JobFiles.job_id f) jobId && is_pending f))).
  2:{ intros f. unfold pending_slot, is_pending.
      destruct (String.eqb (JobFiles.job_id f) jobId), (Z.eqb (JobFiles.file_index f) fileIndex);
        reflexivity. }
  rewrite <- filter_twice.
  eapply Nat.le_trans; [apply filter_length_le|].
  apply (key_selects_at_most_one JobFiles.file_index Z.eqb Z.eqb_eq).
  now apply indices_unique.
Qed.

Lemma file_slot_unique (s : Store) (f f' : JobFiles.row) :
  Consistent s -> In f (job_files s) -> In f' (job_files s) ->
  JobFiles.job_id f = JobFiles.job_id f' -> JobFiles.file_index f = JobFiles.file_index f' ->
  f = f'.
Proof.
  intros C Hf Hf' Ej Ei.
  apply (key_determines_row JobFiles.file_index Z.eqb Z.eqb_eq
           (files_of (JobFiles.job_id f) s)); auto.
  - now apply indices_unique.
  - apply filter_In. split; [exact Hf|apply String.eqb_refl].
  - apply filter_In. split; [exact Hf'|]. apply String.eqb_eq. now symmetry.
Qed.

Lemma uploaded_count_flip (jobId jid : string) (fileIndex : Z) (s s' : Store) :
  job_files s' = flip_slot jobId fileIndex (job_files s) ->
  uploaded_count jid s'
  = uploaded_count jid s
    + (if String.eqb jid jobId
       then changes_where (pending_slot jobId fileIndex) (job_files s) else 0).
Proof.
  intros E. unfold uploaded_count, changes_where.
  rewrite (files_of_flip jobId jid fileIndex s s' E). unfold flip_slot.
  rewrite count_update_where.
  - rewrite pending_slot_of_job. destruct (String.eqb jid jobId); simpl; lia.
  - intros f Hf. apply pending_slot_true in Hf. destruct Hf as [_ [_ Hp]].
    unfold is_uploaded. now rewrite Hp.
  - intros f _. reflexivity.
Qed.

Lemma in_count_up (jobId : string) (t : list Jobs.row) (j' : Jobs.row) :
  In j' (count_up jobId t) ->
  exists j, In j t /\ Jobs.id j' = Jobs.id j /\ Jobs.total_files j' = Jobs.total_files j
            /\ Jobs.uploaded_files j'
               = Jobs.uploaded_files j + (if String.eqb (Jobs.id j) jobId then 1 else 0).
Proof.
  intros H. unfold count_up, update_where in H. apply in_map_iff in H.
  destruct H as [j [<- Hj]]. exists j. split; [exact Hj|].
  unfold has_id. destruct (String.eqb (Jobs.id j) jobId); simpl; repeat split; lia.
Qed.

Lemma Consistent_uploaded (jobId : string) (fileIndex : Z) (key : string) (file : Bytes)
  (s : Store) :
  Consistent s -> Consistent (uploaded_store jobId fileIndex key file s).
Proof.
  intros C.
  set (s' := uploaded_store jobId fileIndex key file s).
  assert (Efiles : job_files s' = flip_slot jobId fileIndex (job_files s)) by reflexivity.
  assert (Eids : map Jobs.id (jobs s') = map Jobs.id (jobs s)).
  { unfold s', uploaded_store. simpl.
    destruct (0 <? changes_where (pending_slot jobId fileIndex) (job_files s));
      [|reflexivity].
    apply map_update_where. reflexivity. }
  assert (Hjobs : forall j', In j' (jobs s') ->
            exists j, In j (jobs s) /\ Jobs.id j' = Jobs.id j
                      /\ Jobs.total_files j' = Jobs.total_files j
                      /\ Jobs.uploaded_files j'
                         = Jobs.uploaded_files j
                           + (if String.eqb (Jobs.id j) jobId
                              then changes_where (pending_slot jobId fileIndex) (job_files s)
                              else 0)).
  { intros j' Hj'. unfold s', uploaded_store in Hj'. simpl in Hj'.
    pose proof (pending_slot_at_most_one jobId fileIndex s C) as Hone.
    unfold changes_where in *.
    destruct (0 <? Z.of_nat (length (filter (pending_slot jobId fileIndex) (job_files s))))
      eqn:Hn.
    - apply Z.ltb_lt in Hn. apply in_count_up in Hj'.
      destruct Hj' as [j [Hj [E1 [E2 E3]]]]. exists j. repeat split; auto.
      rewrite E3. destruct (String.eqb (Jobs.id j) jobId); lia.
    - apply Z.ltb_ge in Hn. exists j'. repeat split; auto.
      destruct (String.eqb (Jobs.id j') jobId); lia. }
  constructor.
  - rewrite Eids. apply (ids_unique s C).
  - intros f' Hf'. rewrite (job_exists_same_ids _ s s' Eids).
    rewrite Efiles in Hf'. unfold flip_slot, update_where in Hf'.
    apply in_map_iff in Hf'. destruct Hf' as [f [<- Hf]].
    pose proof (files_have_job s C f Hf) as H.
    destruct (pending_slot jobId fileIndex f); exact H.
  - intros r Hr. rewrite (job_exists_same_ids _ s s' Eids).
    now apply (recipients_have_job s C).
  - intros jid. rewrite (files_of_flip jobId jid fileIndex s s' Efiles). unfold flip_slot.
    rewrite map_update_where by reflexivity. rewrite length_update_where.
    apply (files_indexed s C).
  - intros j' Hj'. destruct (Hjobs j' Hj') as [j [Hj [E1 [E2 _]]]].
    rewrite (files_of_flip jobId _ fileIndex s s' Efiles). unfold flip_slot.
    rewrite length_update_where, E1, E2.
    destruct (files_total s C j Hj) as [E|E]; [left|now right].
    rewrite E. reflexivity.
  - intros j' Hj'. destruct (Hjobs j' Hj') as [j [Hj [_ [E2 _]]]].
    rewrite E2. now apply (total_counted s C).
  - intros f' Hf'. rewrite Efiles in Hf'. unfold flip_slot, update_where in Hf'.
    apply in_map_iff in Hf'. destruct Hf' as [f [<- Hf]].
    destruct (pending_slot jobId fileIndex f); [now right|].
    now apply (files_status s C).
  - intros j' Hj'. destruct (Hjobs j' Hj') as [j [Hj [E1 [_ E3]]]].
    rewrite (uploaded_count_flip jobId _ fileIndex s s' Efiles), E1, E3.
    now rewrite (counter_exact s C j Hj).
Qed.

Lemma Consistent_status (jobId status : string) (s : Store) :
  Consistent s ->
  Consistent (with_jobs (update_where (has_id jobId) (Jobs.set_status status) (jobs s)) s).
Proof.
  intros C.
  set (s' := with_jobs (update_where (has_id jobId) (Jobs.set_status status) (jobs s)) s).
  assert (Eids : map Jobs.id (jobs s') = map Jobs.id (jobs s))
    by (apply map_update_where; reflexivity).
  assert (Hjobs : forall j', In j' (jobs s') ->
            exists j, In j (jobs s) /\ Jobs.id j' = Jobs.id j
                      /\ Jobs.total_files j' = Jobs.total_files j
                      /\ Jobs.uploaded_files j' = Jobs.uploaded_files j).
  { intros j' Hj'. unfold s', with_jobs, update_where in Hj'. simpl in Hj'.
    apply in_map_iff in Hj'. destruct Hj' as [j [<- Hj]]. exists j.
    destruct (has_id jobId j); simpl; auto. }
  constructor.
  - rewrite Eids. apply (ids_unique s C).
  - intros f Hf. rewrite (job_exists_same_ids _ s s' Eids). now apply (files_have_job s C).
  - intros r Hr. rewrite (job_exists_same_ids _ s s' Eids).
    now apply (recipients_have_job s C).
  - apply (files_indexed s C).
  - intros j' Hj'. destruct (Hjobs j' Hj') as [j [Hj [E1 [E2 _]]]].
    rewrite E1, E2. now apply (files_total s C).
  - intros j' Hj'. destruct (Hjobs j' Hj') as [j [Hj [_ [E2 _]]]].
    rewrite E2. now apply (total_counted s C).
  - apply (files_status s C).
  - intros j' Hj'. destruct (Hjobs j' Hj') as [j [Hj [E1 [_ E3]]]].
    rewrite E1, E3. now apply (counter_exact s C).
Qed.

Lemma Consistent_empty : Consistent empty_store.
Proof.
  constructor; simpl; try (intros ? []); try constructor.
Qed.

Lemma upload_consistent (env : Env) (userEmail jobId : string) (fileIndex : Z)
  (formData : FormData) (s : Store) :
  Consistent s ->
  Consistent (store_of (run (uploadFile env userEmail jobId fileIndex formData) s)).
Proof.
  intros C. rewrite uploadFile_run.
  destruct (select_fileRow jobId fileIndex userEmail s) as [fileRow|]; [|exact C].
  destruct (formData_get "file" formData) as [[str|file]|]; try exact C.
  destruct (bucket_put_resolves env); [|exact C].
  now apply Consistent_uploaded.
Qed.

Lemma serve_consistent (env : Env) (r : Request) (s : Store) :
  Consistent s -> Consistent (serve env r s).
Proof.
  intros C. unfold serve. destruct r as [u req|u jobId i fd|u jobId|u jobId|u jobId]; simpl.
  - destruct (draft_issues req); [|exact C].
    rewrite createDraft_run.
    destruct (job_exists (randomUUID env 0) s) eqn:Hfresh; [exact C|].
    destruct (negb (user_exists u s)); [exact C|].
    destruct (db_batch_resolves env).
    + now apply Consistent_drafted.
    + now apply Consistent_job_alone.
  - destruct (param_issues i); [|exact C]. now apply upload_consistent.
  - rewrite submitJob_run.
    destruct (select_job_of jobId u s) as [jobRow|]; [|exact C].
    destruct (negb (String.eqb (Jobs.status jobRow) "draft")); [exact C|].
    destruct (Jobs.uploaded_files jobRow <? Jobs.total_files jobRow); [exact C|].
    now apply Consistent_status.
  - rewrite getJobStatus_run.
    destruct (select_job_of jobId u s) as [jobRow|]; exact C.
  - rewrite completeJob_run.
    destruct (select_job_of jobId u s) as [jobRow|]; [|exact C].
    destruct (negb (String.eqb (Jobs.status jobRow) "pending")); [exact C|].
    now apply Consistent_status.
Qed.

Lemma Served_Consistent (s : Store) : Served s -> Consistent s.
Proof.
  induction 1 as [|s e _ IH _|s env r _ IH].
  - apply Consistent_empty.
  - now apply (Consistent_tables s).
  - now apply serve_consistent.
Qed.

Lemma Reach_Served (s : Store) : Reach s -> Served s.
Proof. induction 1; now constructor. Qed.

Lemma Reach_Consistent (s : Store) : Reach s -> Consistent s.
Proof. intros H. apply Served_Consistent, Reach_Served, H. Qed.

(** ** C1: the counter and the uploaded rows *)

(** A sequence of calls, each with what it takes from outside. *)
Definition serve_all (calls : list (Env * Request)) (s : Store) : Store :=
  fold_left (fun s' c => serve (fst c) (snd c) s') calls s.

Definition is_upload (c : Env * Request) : Prop :=
  match snd c with
  | PutFile _ _ _ _ => True
  | _ => False
  end.

Lemma uploads_consistent (calls : list (Env * Request)) (s : Store) :
  Consistent s -> Forall is_upload calls -> Consistent (serve_all calls s).
Proof.
  intros C Hall. revert s C.
  induction Hall as [|[env r] calls Hup _ IH]; intros s C; simpl; [exact C|].
  apply IH. destruct r; try contradiction. now apply (serve_consistent env).
Qed.

(** C1.  From any store the service can reach, after any sequence of upload
    calls (any caller, job, index, form and blob outcome, so repeated and
    out-of-order indices too), the [uploaded_files] counter of every job is
    the number of its JobFile rows whose [upload_status] is ['uploaded']. *)
Theorem uploadedFiles_counts_uploaded_rows
  (s : Store) (calls : list (Env * Request)) (j : Jobs.row) :
  Served s -> Forall is_upload calls -> In j (jobs (serve_all calls s)) ->
  Jobs.uploaded_files j = uploaded_count (Jobs.id j) (serve_all calls s).
Proof.
  intros HR Hall Hj.
  apply (counter_exact _ (uploads_consistent calls s (Served_Consistent s HR) Hall)), Hj.
Qed.

Definition env_put_fails : Env := mkEnv uuids false true.

Definition owner : string := "u@example.com".

Definition scenario_uploads : list (Env * Request) :=
  [ (env_ok, PutFile owner "job-1" 1 (form_of [x01]));
    (env_ok, PutFile owner "job-1" 1 (form_of [x01]));
    (env_put_fails, PutFile owner "job-1" 2 (form_of [x02]));
    (env_ok, PutFile owner "job-1" 2 (form_of [x02]));
    (env_ok, PutFile owner "job-1" 0 (form_of [x00])) ].

Lemma Reach_signed_up : Reach signed_up.
Proof. apply (Reach_signup empty_store); [apply Reach_empty|reflexivity]. Defined.

Lemma Reach_drafted : Reach drafted.
Proof. apply (Reach_serve signed_up env_ok); [apply Reach_signed_up|reflexivity]. Defined.

Definition job1 (status : string) (uploaded : Z) : Jobs.row :=
  Jobs.mk "job-1" owner "SECURED" 1 0 0 0 0 status 3 uploaded.

Lemma uploadedFiles_counts_uploaded_rows_witness :
  Jobs.uploaded_files (job1 "draft" 3)
  = uploaded_count "job-1" (serve_all scenario_uploads drafted).
Proof.
  apply (uploadedFiles_counts_uploaded_rows drafted scenario_uploads (job1 "draft" 3)).
  - exact (Reach_Served _ Reach_drafted).
  - repeat constructor.
  - vm_compute. left. reflexivity.
Defined.

(** ** The guarded lookup of the upload handler *)

Lemma in_inner_join {A B : Type} (on : A -> B -> bool) (ta : list A) (tb : list B)
  (a : A) (b : B) :
  In (a, b) (inner_join on ta tb) <-> In a ta /\ In b tb /\ on a b = true.
Proof.
  unfold inner_join. rewrite in_flat_map. split.
  - intros [x [Hx Hin]]. apply in_map_iff in Hin. destruct Hin as [y [E Hy]].
    injection E as -> ->. apply filter_In in Hy. tauto.
  - intros [Ha [Hb Hon]]. exists a. split; [exact Ha|].
    apply in_map. apply filter_In. tauto.
Qed.

Lemma select_fileRow_inv (jobId : string) (fileIndex : Z) (userEmail : string)
  (s : Store) (fileRow : JobFiles.row) :
  select_fileRow jobId fileIndex userEmail s = Some fileRow ->
  In fileRow (job_files s)
  /\ JobFiles.job_id fileRow = jobId /\ JobFiles.file_index fileRow = fileIndex
  /\ exists j, In j (jobs s) /\ Jobs.id j = jobId /\ Jobs.user_email j = userEmail
               /\ Jobs.status j = "draft"%string.
Proof.
  unfold select_fileRow.
  match goal with |- context [first ?l] => destruct (first l) as [[jf j]|] eqn:E end;
    simpl; [|discriminate].
  intros [= <-]. apply first_in in E. apply filter_In in E. destruct E as [Hin Hc].
  apply in_inner_join in Hin. destruct Hin as [Hjf [Hj Hon]]. simpl in Hc.
  rewrite !andb_true_iff, !String.eqb_eq, Z.eqb_eq in Hc.
  apply String.eqb_eq in Hon.
  destruct Hc as [[[E1 E2] E3] E4]. repeat split; auto.
  exists j. repeat split; auto. congruence.
Qed.

Lemma select_fileRow_found (s : Store) (j : Jobs.row) (f : JobFiles.row) :
  In j (jobs s) -> In f (job_files s) -> JobFiles.job_id f = Jobs.id j ->
  Jobs.status j = "draft"%string ->
  select_fileRow (Jobs.id j) (JobFiles.file_index f) (Jobs.user_email j) s <> None.
Proof.
  intros Hj Hf Ejob Hdraft. unfold select_fileRow.
  match goal with |- context [first (filter ?p ?l)] =>
    pose proof (first_filter_found p l (f, j)) as H;
    destruct (first (filter p l)); [discriminate|] end.
  exfalso. apply H; [|simpl|reflexivity].
  - apply in_inner_join. rewrite Ejob, String.eqb_refl. auto.
  - now rewrite Ejob, Hdraft, !String.eqb_refl, Z.eqb_refl.
Qed.

(** In a consistent store the lookup returns the registered row of the slot. *)
Lemma select_fileRow_registered (s : Store) (j : Jobs.row) (f : JobFiles.row) :
  Consistent s -> In j (jobs s) -> In f (job_files s) -> JobFiles.job_id f = Jobs.id j ->
  Jobs.status j = "draft"%string ->
  select_fileRow (Jobs.id j) (JobFiles.file_index f) (Jobs.user_email j) s = Some f.
Proof.
  intros C Hj Hf Ejob Hdraft.
  pose proof (select_fileRow_found s j f Hj Hf Ejob Hdraft) as Hfound.
  destruct (select_fileRow (Jobs.id j) (JobFiles.file_index f) (Jobs.user_email j) s)
    as [fr|] eqn:E; [|contradiction].
  apply select_fileRow_inv in E. destruct E as [Hfr [E1 [E2 _]]].
  f_equal. apply (file_slot_unique s); auto. congruence.
Qed.

(** No row of a job that is not a draft passes the lookup. *)
Lemma select_fileRow_not_draft (s : Store) (j : Jobs.row) (fileIndex : Z) (userEmail : string) :
  NoDup (map Jobs.id (jobs s)) -> In j (jobs s) -> Jobs.status j <> "draft"%string ->
  select_fileRow (Jobs.id j) fileIndex userEmail s = None.
Proof.
  intros Hnd Hj Hst.
  destruct (select_fileRow (Jobs.id j) fileIndex userEmail s) as [fr|] eqn:E; [|reflexivity].
  apply select_fileRow_inv in E. destruct E as [_ [_ [_ [j' [Hj' [Eid [_ Hdraft]]]]]]].
  rewrite (ids_determine_job s j' j Hnd Hj' Hj Eid) in Hdraft. contradiction.
Qed.

Lemma select_fileRow_not_owner (s : Store) (j : Jobs.row) (fileIndex : Z) (userEmail : string) :
  NoDup (map Jobs.id (jobs s)) -> In j (jobs s) -> Jobs.user_email j <> userEmail ->
  select_fileRow (Jobs.id j) fileIndex userEmail s = None.
Proof.
  intros Hnd Hj Hne.
  destruct (select_fileRow (Jobs.id j) fileIndex userEmail s) as [fr|] eqn:E; [|reflexivity].
  apply select_fileRow_inv in E. destruct E as [_ [_ [_ [j' [Hj' [Eid [Hu _]]]]]]].
  rewrite (ids_determine_job s j' j Hnd Hj' Hj Eid) in Hu. contradiction.
Qed.

Lemma select_fileRow_absent (s : Store) (jobId : string) (fileIndex : Z) (userEmail : string) :
  job_exists jobId s = false -> select_fileRow jobId fileIndex userEmail s = None.
Proof.
  intros Habs.
  destruct (select_fileRow jobId fileIndex userEmail s) as [fr|] eqn:E; [|reflexivity].
  apply select_fileRow_inv in E. destruct E as [_ [_ [_ [j' [Hj' [Eid _]]]]]].
  pose proof (job_exists_in j' s Hj') as H. rewrite Eid in H. congruence.
Qed.

(** ** C2: uploading a registered slot *)

Lemma bucket_get_put (key : string) (body : Bytes) (b : list (string * Bytes)) :
  bucket_get key (bucket_put key body b) = Some body.
Proof. unfold bucket_get, bucket_put. simpl. now rewrite String.eqb_refl. Qed.

Lemma set_uploaded_files_same (j : Jobs.row) :
  Jobs.set_uploaded_files (Jobs.uploaded_files j + 0) j = j.
Proof. destruct j. unfold Jobs.set_uploaded_files. simpl. now rewrite Z.add_0_r. Qed.

Lemma set_upload_status_same (f : JobFiles.row) :
  JobFiles.upload_status f = "uploaded"%string ->
  JobFiles.set_upload_status "uploaded" f = f.
Proof. destruct f. unfold JobFiles.set_upload_status. simpl. now intros ->. Qed.

Lemma pending_slot_own (f : JobFiles.row) :
  pending_slot (JobFiles.job_id f) (JobFiles.file_index f) f = is_pending f.
Proof. unfold pending_slot, is_pending. now rewrite String.eqb_refl, Z.eqb_refl. Qed.

(** The guarded UPDATE changes one row when the slot is pending, none otherwise. *)
Lemma changes_of_slot (s : Store) (f : JobFiles.row) :
  Consistent s -> In f (job_files s) ->
  changes_where (pending_slot (JobFiles.job_id f) (JobFiles.file_index f)) (job_files s)
  = if is_pending f then 1 else 0.
Proof.
  intros C Hf. unfold changes_where.
  pose proof (pending_slot_at_most_one (JobFiles.job_id f) (JobFiles.file_index f) s C) as Hle.
  destruct (is_pending f) eqn:Hp.
  - assert (Hin : In f (filter (pending_slot (JobFiles.job_id f) (JobFiles.file_index f))
                          (job_files s))).
    { apply filter_In. split; [exact Hf|]. now rewrite pending_slot_own. }
    destruct (filter (pending_slot (JobFiles.job_id f) (JobFiles.file_index f)) (job_files s))
      as [|a [|b r]]; simpl in *; [contradiction|reflexivity|lia].
  - rewrite filter_none; [reflexivity|].
    intros f' Hf'.
    destruct (pending_slot (JobFiles.job_id f) (JobFiles.file_index f) f') eqn:E;
      [|reflexivity].
    pose proof E as E'. apply pending_slot_true in E'. destruct E' as [E1 [E2 _]].
    assert (f' = f) by (apply (file_slot_unique s); auto). subst f'.
    rewrite pending_slot_own in E. congruence.
Qed.

Section Registered.
Variables (env : Env) (s : Store) (j : Jobs.row) (f : JobFiles.row)
  (formData : FormData) (file : Bytes).
Hypothesis consistent : Consistent s.
Hypothesis job_row : In j (jobs s).
Hypothesis job_draft : Jobs.status j = "draft"%string.
Hypothesis file_row : In f (job_files s).
Hypothesis file_job : JobFiles.job_id f = Jobs.id j.
Hypothesis form_file : formData_get "file" formData = Some (FormFile file).
Hypothesis put_resolves : bucket_put_resolves env = true.

Let delta : Z := if is_pending f then 1 else 0.
Let s' : Store :=
  uploaded_store (Jobs.id j) (JobFiles.file_index f) (JobFiles.storage_key f) file s.
Let j' : Jobs.row := Jobs.set_uploaded_files (Jobs.uploaded_files j + delta) j.

Lemma uploaded_job_row : In j' (jobs s') /\ select_job (Jobs.id j) s' = Some j'.
Proof.
  assert (Hin : In j' (jobs s')).
  { unfold s', uploaded_store, j', delta. simpl. rewrite <- file_job.
    rewrite (changes_of_slot s f consistent file_row).
    destruct (is_pending f); simpl.
    - rewrite file_job.
      pose proof (in_update_where (has_id (Jobs.id j))
                    (fun x => Jobs.set_uploaded_files (Jobs.uploaded_files x + 1) x)
                    (jobs s) j job_row) as H.
      unfold has_id in H at 1. now rewrite String.eqb_refl in H.
    - now rewrite set_uploaded_files_same. }
  split; [exact Hin|].
  change (Jobs.id j) with (Jobs.id j').
  apply select_job_found; [|exact Hin].
  apply (ids_unique s' (Consistent_uploaded _ _ _ _ s consistent)).
Qed.

Lemma uploaded_file_row : In (JobFiles.set_upload_status "uploaded" f) (job_files s').
Proof.
  unfold s', uploaded_store. simpl. unfold flip_slot.
  pose proof (in_update_where (pending_slot (Jobs.id j) (JobFiles.file_index f))
                (JobFiles.set_upload_status "uploaded") (job_files s) f file_row) as H.
  rewrite <- file_job in H at 1. rewrite pending_slot_own in H.
  destruct (is_pending f) eqn:Hp; [exact H|].
  rewrite set_upload_status_same; [exact H|].
  destruct (files_status s consistent f file_row) as [Hs|Hs]; [|exact Hs].
  unfold is_pending in Hp. rewrite Hs in Hp. discriminate.
Qed.

(** The writes of the call: the put, the guarded UPDATE and, when that changed
    the row, the increment of the one job row. *)
Lemma uploaded_trace_registered :
  uploaded_trace (Jobs.id j) (JobFiles.file_index f) (JobFiles.storage_key f) file s
  = BucketPut (JobFiles.storage_key f) file
    :: DbRun (UpdateJobFileUploaded (Jobs.id j) (JobFiles.file_index f)) delta
    :: (if is_pending f then [DbRun (IncrementUploadedFiles (Jobs.id j)) 1] else []).
Proof.
  unfold uploaded_trace, delta. cbv zeta.
  assert (E : changes_where (pending_slot (Jobs.id j) (JobFiles.file_index f)) (job_files s)
              = if is_pending f then 1 else 0).
  { rewrite <- file_job. now apply changes_of_slot. }
  rewrite E. destruct (is_pending f); simpl; [|reflexivity].
  unfold changes_where, has_id.
  now rewrite (key_selects_one Jobs.id String.eqb String.eqb_eq _ _
                 (ids_unique s consistent) job_row).
Qed.

Lemma upload_registered :
  run (uploadFile env (Jobs.user_email j) (Jobs.id j) (JobFiles.file_index f) formData) s
  = (inr (json (UploadFileResponse (JobFiles.file_index f)
                  (Jobs.uploaded_files j + delta) (Jobs.total_files j)) 200),
     s',
     uploaded_trace (Jobs.id j) (JobFiles.file_index f) (JobFiles.storage_key f) file s).
Proof.
  rewrite uploadFile_run.
  rewrite (select_fileRow_registered s j f consistent job_row file_row file_job job_draft).
  rewrite form_file, put_resolves. cbv zeta. fold s'.
  now rewrite (proj2 uploaded_job_row).
Qed.
End Registered.

(** C2.  For a draft job [j] of the caller and a registered slot [f] of it not
    yet uploaded, the same upload call made twice answers 200 both times with
    the counter one above where it started.  The first call writes the blob
    under the slot's pre-assigned key, flips the row and increments the
    counter; the second writes the blob again, changes no row and does not
    increment.  The counter of the job and the number of its uploaded rows end
    exactly one higher. *)
Theorem upload_twice_counts_once
  (env : Env) (s : Store) (j : Jobs.row) (f : JobFiles.row) (formData : FormData)
  (file : Bytes) :
  Served s -> In j (jobs s) -> Jobs.status j = "draft"%string ->
  In f (job_files s) -> JobFiles.job_id f = Jobs.id j ->
  JobFiles.upload_status f = "pending"%string ->
  formData_get "file" formData = Some (FormFile file) ->
  bucket_put_resolves env = true ->
  let call :=
    uploadFile env (Jobs.user_email j) (Jobs.id j) (JobFiles.file_index f) formData in
  let once := run call s in
  let twice := run call (store_of once) in
  let ok : Exn + Response :=
    inr (json (UploadFileResponse (JobFiles.file_index f) (Jobs.uploaded_files j + 1)
                 (Jobs.total_files j)) 200) in
  outcome_of once = ok /\ outcome_of twice = ok
  /\ trace_of once
     = [BucketPut (JobFiles.storage_key f) file;
        DbRun (UpdateJobFileUploaded (Jobs.id j) (JobFiles.file_index f)) 1;
        DbRun (IncrementUploadedFiles (Jobs.id j)) 1]
  /\ trace_of twice
     = [BucketPut (JobFiles.storage_key f) file;
        DbRun (UpdateJobFileUploaded (Jobs.id j) (JobFiles.file_index f)) 0]
  /\ bucket_get (JobFiles.storage_key f) (bucket (store_of once)) = Some file
  /\ bucket_get (JobFiles.storage_key f) (bucket (store_of twice)) = Some file
  /\ select_job (Jobs.id j) (store_of once)
     = Some (Jobs.set_uploaded_files (Jobs.uploaded_files j + 1) j)
  /\ select_job (Jobs.id j) (store_of twice)
     = Some (Jobs.set_uploaded_files (Jobs.uploaded_files j + 1) j)
  /\ uploaded_count (Jobs.id j) (store_of twice) = uploaded_count (Jobs.id j) s + 1.
Proof.
  intros HR Hj Hdraft Hf Ejob Hpending Hform Hput call once twice ok.
  pose proof (Served_Consistent s HR) as C.
  assert (Hp : is_pending f = true) by (unfold is_pending; now rewrite Hpending).
  set (s1 := uploaded_store (Jobs.id j) (JobFiles.file_index f) (JobFiles.storage_key f) file s).
  set (j1 := Jobs.set_uploaded_files (Jobs.uploaded_files j + 1) j).
  set (f1 := JobFiles.set_upload_status "uploaded" f).
  assert (C1 : Consistent s1) by now apply Consistent_uploaded.
  assert (E1 : once
               = (ok, s1, uploaded_trace (Jobs.id j) (JobFiles.file_index f)
                            (JobFiles.storage_key f) file s)).
  { unfold once, call.
    rewrite (upload_registered env s j f formData file C Hj Hdraft Hf Ejob Hform Hput).
    now rewrite Hp. }
  pose proof (uploaded_trace_registered s j f file C Hj Hf Ejob) as T1.
  rewrite Hp in T1.
  destruct (uploaded_job_row s j f file C Hj Hf Ejob) as [Hj1 Hsel1].
  rewrite Hp in Hj1, Hsel1. fold s1 j1 in Hj1, Hsel1.
  pose proof (uploaded_file_row s j f file C Hf Ejob) as Hf1. fold s1 f1 in Hf1.
  set (s2 := uploaded_store (Jobs.id j) (JobFiles.file_index f) (JobFiles.storage_key f) file s1).
  assert (E2 : twice
               = (ok, s2, uploaded_trace (Jobs.id j) (JobFiles.file_index f)
                            (JobFiles.storage_key f) file s1)).
  { unfold twice. rewrite E1. unfold store_of, call. simpl fst. simpl snd.
    pose proof (upload_registered env s1 j1 f1 formData file C1 Hj1 Hdraft Hf1 Ejob Hform Hput)
      as H.
    simpl in H. rewrite H. unfold ok, s2. now rewrite Z.add_0_r. }
  pose proof (uploaded_trace_registered s1 j1 f1 file C1 Hj1 Hf1 Ejob) as T2.
  simpl in T2.
  destruct (uploaded_job_row s1 j1 f1 file C1 Hj1 Hf1 Ejob) as [Hj2 Hsel2].
  simpl in Hj2, Hsel2. fold s2 in Hj2, Hsel2.
  change (Jobs.uploaded_files j + 1 + 0) with (Jobs.uploaded_files j1 + 0) in Hj2, Hsel2.
  rewrite set_uploaded_files_same in Hj2, Hsel2.
  rewrite E1, E2. unfold outcome_of, store_of, trace_of. simpl.
  repeat split; auto using bucket_get_put.
  assert (C2 : Consistent s2) by now apply Consistent_uploaded.
  pose proof (counter_exact s2 C2 j1 Hj2) as Hc2.
  pose proof (counter_exact s C j Hj) as Hc.
  simpl in Hc2. rewrite <- Hc2, <- Hc. reflexivity.
Qed.

Definition slot1 : JobFiles.row :=
  JobFiles.mk "job-1" "f1.png" "a" "jobs/job-1/k1-f1.png" 20 "pending" 1.

Lemma upload_twice_counts_once_witness :
  outcome_of (run (uploadFile env_ok owner "job-1" 1 (form_of [x01])) drafted)
  = inr (json (UploadFileResponse 1 1 3) 200)
  /\ outcome_of
       (run (uploadFile env_ok owner "job-1" 1 (form_of [x01]))
          (store_of (run (uploadFile env_ok owner "job-1" 1 (form_of [x01])) drafted)))
     = inr (json (UploadFileResponse 1 1 3) 200).
Proof.
  pose proof (upload_twice_counts_once env_ok drafted (job1 "draft" 0) slot1
                (form_of [x01]) [x01]) as H.
  cbv zeta in H.
  destruct H as [H1 [H2 _]].
  - exact (Reach_Served _ Reach_drafted).
  - vm_compute. left. reflexivity.
  - reflexivity.
  - vm_compute. right. left. reflexivity.
  - reflexivity.
  - reflexivity.
  - reflexivity.
  - reflexivity.
  - split; [exact H1|exact H2].
Defined.

(** ** C4: the submission gate *)

Lemma counter_bounded (s : Store) (j : Jobs.row) :
  Consistent s -> In j (jobs s) -> 0 <= Jobs.uploaded_files j <= Jobs.total_files j.
Proof.
  intros C Hj. rewrite (counter_exact s C j Hj). unfold uploaded_count.
  pose proof (total_counted s C j Hj) as Hpos.
  destruct (files_total s C j Hj) as [E|E]; rewrite E; [simpl; lia|].
  pose proof (filter_length_le is_uploaded (files_of (Jobs.id j) s)). lia.
Qed.

Lemma status_updated_row (s : Store) (j : Jobs.row) (status : string) :
  Consistent s -> In j (jobs s) ->
  select_job (Jobs.id j)
    (with_jobs (update_where (has_id (Jobs.id j)) (Jobs.set_status status) (jobs s)) s)
  = Some (Jobs.set_status status j).
Proof.
  intros C Hj.
  change (Jobs.id j) with (Jobs.id (Jobs.set_status status j)) at 1.
  apply select_job_found.
  - apply (ids_unique _ (Consistent_status (Jobs.id j) status s C)).
  - simpl.
    pose proof (in_update_where (has_id (Jobs.id j)) (Jobs.set_status status) (jobs s) j Hj)
      as H.
    unfold has_id in H at 1. now rewrite String.eqb_refl in H.
Qed.

(** C4.  For a job [j] of the caller in a reachable store, submit
    - answers the 400 [Already submitted.] whenever the status is not
      ['draft'], whatever the counters say (the status is checked first);
    - answers a 400 whenever [uploaded_files < total_files];
    - answers 200 exactly when the status is ['draft'] and
      [uploaded_files = total_files], and then the row of the job has status
      ['pending'] and nothing else in the store has changed. *)
Theorem submit_gate (s : Store) (j : Jobs.row) :
  Served s -> In j (jobs s) ->
  let r := run (submitJob (Jobs.user_email j) (Jobs.id j)) s in
  (Jobs.status j <> "draft"%string -> r = (inl already_submitted, s, []))
  /\ (Jobs.status j = "draft"%string -> Jobs.uploaded_files j < Jobs.total_files j ->
      r = (inl not_all_uploaded, s, []))
  /\ (Jobs.uploaded_files j < Jobs.total_files j ->
      http_status (outcome_of r) = 400 /\ store_of r = s)
  /\ (http_status (outcome_of r) = 200 <->
      Jobs.status j = "draft"%string /\ Jobs.uploaded_files j = Jobs.total_files j)
  /\ (http_status (outcome_of r) = 200 ->
      outcome_of r = inr (json (SubmitJobResponse (Jobs.id j)) 200)
      /\ select_job (Jobs.id j) (store_of r) = Some (Jobs.set_status "pending" j)
      /\ jobs (store_of r)
         = update_where (has_id (Jobs.id j)) (Jobs.set_status "pending") (jobs s)
      /\ job_files (store_of r) = job_files s
      /\ job_recipients (store_of r) = job_recipients s
      /\ bucket (store_of r) = bucket s).
Proof.
  intros HR Hj r. pose proof (Served_Consistent s HR) as C.
  pose proof (counter_bounded s j C Hj) as Hb.
  unfold r. rewrite submitJob_run.
  rewrite (select_job_of_owner s j (ids_unique s C) Hj).
  destruct (String.eqb (Jobs.status j) "draft") eqn:Hst; simpl.
  - apply String.eqb_eq in Hst.
    destruct (Jobs.uploaded_files j <? Jobs.total_files j) eqn:Hlt; simpl.
    + apply Z.ltb_lt in Hlt. unfold outcome_of, store_of. simpl.
      repeat split; try tauto; try discriminate; try lia.
    + apply Z.ltb_ge in Hlt. unfold outcome_of, store_of. simpl.
      repeat split; try tauto; try lia; auto using status_updated_row.
  - apply String.eqb_neq in Hst. unfold outcome_of, store_of. simpl.
    repeat split; try tauto; try discriminate.
Qed.

Lemma Reach_serve_all (calls : list (Env * Request)) (s : Store) :
  Reach s -> Forall (fun c => db_batch_resolves (fst c) = true) calls ->
  Reach (serve_all calls s).
Proof.
  intros HR Hall. revert s HR.
  induction Hall as [|[env r] calls Hb _ IH]; intros s HR; simpl; [exact HR|].
  apply IH. now apply Reach_serve.
Qed.

(** Scenario A after its uploads: every slot of the job is uploaded. *)
Definition uploaded_all : Store := serve_all scenario_uploads drafted.

Lemma Reach_uploaded_all : Reach uploaded_all.
Proof. apply Reach_serve_all; [exact Reach_drafted|repeat constructor]. Qed.

Lemma submit_gate_witness :
  outcome_of (run (submitJob owner "job-1") uploaded_all)
  = inr (json (SubmitJobResponse "job-1") 200)
  /\ select_job "job-1" (store_of (run (submitJob owner "job-1") uploaded_all))
     = Some (job1 "pending" 3).
Proof.
  pose proof (submit_gate uploaded_all (job1 "draft" 3)) as H. cbv zeta in H.
  destruct H as [_ [_ [_ [H4 H5]]]].
  - exact (Reach_Served _ Reach_uploaded_all).
  - vm_compute. left. reflexivity.
  - destruct H5 as [H5 [H6 _]].
    + apply H4. split; reflexivity.
    + split; [exact H5|exact H6].
Defined.

(** ** C5: what is left to upload *)

Lemma select_pending_of_job (jobId : string) (s : Store) :
  select_pending jobId s = filter is_pending (files_of jobId s).
Proof. unfold select_pending, files_of. now rewrite filter_twice. Qed.

Lemma pending_or_uploaded (l : list JobFiles.row) :
  (forall f, In f l ->
     JobFiles.upload_status f = "pending"%string
     \/ JobFiles.upload_status f = "uploaded"%string) ->
  (length (filter is_pending l) + length (filter is_uploaded l) = length l)%nat.
Proof.
  induction l as [|a l IH]; simpl; intros H; [reflexivity|].
  assert (IH' := IH (fun f Hf => H f (or_intror Hf))).
  unfold is_pending at 1, is_uploaded at 1.
  destruct (H a (or_introl eq_refl)) as [E|E]; rewrite E; simpl; lia.
Qed.

Lemma pending_count (s : Store) (j : Jobs.row) :
  Consistent s -> In j (jobs s) ->
  Z.of_nat (length (select_pending (Jobs.id j) s))
  = Z.of_nat (length (files_of (Jobs.id j) s)) - Jobs.uploaded_files j.
Proof.
  intros C Hj. rewrite select_pending_of_job.
  rewrite (counter_exact s C j Hj). unfold uploaded_count.
  assert (H : (length (filter is_pending (files_of (Jobs.id j) s))
               + length (filter is_uploaded (files_of (Jobs.id j) s))
               = length (files_of (Jobs.id j) s))%nat).
  { apply pending_or_uploaded. intros f Hf. apply (files_status s C).
    apply filter_In in Hf. tauto. }
  lia.
Qed.

(** The store a registration leaves when its batch is rejected: the user of
    the scenario has signed up, the job row is written, the batch is not. *)
Definition env_batch_fails : Env := mkEnv uuids true false.

Definition job_alone : Store :=
  serve env_batch_fails (PostDraft "u@example.com" three_files) signed_up.

Lemma Served_job_alone : Served job_alone.
Proof. apply Served_serve, Reach_Served, Reach_signed_up. Qed.

(** C5, the claim as it stands, fails.  The service reaches [job_alone]; it
    holds the caller's job with [total_files = 3] and [uploaded_files = 0] and
    no JobFile row, so get-status answers [pendingIndices = []], whose length
    is not [totalFiles - uploadedFiles]. *)
Lemma status_length_fails_on_job_alone :
  Served job_alone
  /\ In (job1 "draft" 0) (jobs job_alone)
  /\ run (getJobStatus owner "job-1") job_alone
     = (inr (json (JobStatusResponse "job-1" "draft" 3 0 []) 200), job_alone, [])
  /\ ~ (exists pendingIndices : list Z,
          outcome_of (run (getJobStatus (Jobs.user_email (job1 "draft" 0))
                             (Jobs.id (job1 "draft" 0))) job_alone)
          = inr (json (JobStatusResponse "job-1" "draft" 3 0 pendingIndices) 200)
          /\ Z.of_nat (length pendingIndices)
             = Jobs.total_files (job1 "draft" 0) - Jobs.uploaded_files (job1 "draft" 0)).
Proof.
  split; [exact Served_job_alone|]. split; [vm_compute; left; reflexivity|].
  split; [reflexivity|].
  intros [l [H E]]. vm_compute in H. injection H as <-. simpl in E. discriminate E.
Qed.

(** C5, as amended.  For a job [j] of the caller in any store the service
    reaches, get-status answers 200 with the job's status and counters and
    with [pendingIndices]
    - in strictly ascending order,
    - holding exactly the indices of the job's JobFile rows whose
      [upload_status] is ['pending'],
    - of length [total_files - uploaded_files] when the job has its JobFile
      rows, that is when the batch of its registration completed;
    - empty, with [uploaded_files = 0], when the job has no JobFile row, that
      is when that batch was rejected;
    the store is left as it was. *)
Theorem status_lists_pending_indices (s : Store) (j : Jobs.row) :
  Served s -> In j (jobs s) ->
  exists pendingIndices : list Z,
    run (getJobStatus (Jobs.user_email j) (Jobs.id j)) s
    = (inr (json (JobStatusResponse (Jobs.id j) (Jobs.status j) (Jobs.total_files j)
                    (Jobs.uploaded_files j) pendingIndices) 200),
       s, [])
    /\ StronglySorted Z.lt pendingIndices
    /\ (forall i, In i pendingIndices <->
          exists f, In f (job_files s) /\ JobFiles.job_id f = Jobs.id j
                    /\ JobFiles.file_index f = i
                    /\ JobFiles.upload_status f = "pending"%string)
    /\ (files_of (Jobs.id j) s <> [] ->
        Z.of_nat (length pendingIndices) = Jobs.total_files j - Jobs.uploaded_files j)
    /\ (files_of (Jobs.id j) s = [] ->
        pendingIndices = [] /\ Jobs.uploaded_files j = 0).
Proof.
  intros HS Hj. pose proof (Served_Consistent s HS) as C.
  exists (map JobFiles.file_index (select_pending (Jobs.id j) s)).
  split; [|split; [|split; [|split]]].
  - rewrite getJobStatus_run.
    now rewrite (select_job_of_owner s j (ids_unique s C) Hj).
  - rewrite select_pending_of_job. apply strictly_sorted_filter.
    rewrite (files_indexed s C). apply seq_strictly_sorted.
  - intros i. rewrite in_map_iff. unfold select_pending. split.
    + intros [f [Ei Hf]]. apply filter_In in Hf. destruct Hf as [Hf Hc].
      apply andb_true_iff in Hc. destruct Hc as [E1 E2].
      apply String.eqb_eq in E1, E2. exists f. auto.
    + intros [f [Hf [E1 [Ei E2]]]]. exists f. split; [exact Ei|].
      apply filter_In. split; [exact Hf|].
      now rewrite E1, E2, !String.eqb_refl.
  - intros Hrows. rewrite length_map, (pending_count s j C Hj).
    destruct (files_total s C j Hj) as [E|E]; [contradiction|]. now rewrite E.
  - intros Hnone. rewrite select_pending_of_job, Hnone. split; [reflexivity|].
    rewrite (counter_exact s C j Hj). unfold uploaded_count. now rewrite Hnone.
Qed.

Lemma status_lists_pending_indices_witness :
  (exists pendingIndices : list Z,
     run (getJobStatus owner "job-1") drafted
     = (inr (json (JobStatusResponse "job-1" "draft" 3 0 pendingIndices) 200), drafted, [])
     /\ StronglySorted Z.lt pendingIndices
     /\ Z.of_nat (length pendingIndices) = 3 - 0)
  /\ (exists pendingIndices : list Z,
        run (getJobStatus owner "job-1") job_alone
        = (inr (json (JobStatusResponse "job-1" "draft" 3 0 pendingIndices) 200),
           job_alone, [])
        /\ pendingIndices = []).
Proof.
  split.
  - destruct (status_lists_pending_indices drafted (job1 "draft" 0))
      as [l [H1 [H2 [_ [H4 _]]]]].
    + exact (Reach_Served drafted Reach_drafted).
    + vm_compute. left. reflexivity.
    + exists l. split; [exact H1|split; [exact H2|]]. apply H4. vm_compute. discriminate.
  - destruct (status_lists_pending_indices job_alone (job1 "draft" 0))
      as [l [H1 [_ [_ [_ H5]]]]].
    + exact Served_job_alone.
    + vm_compute. left. reflexivity.
    + exists l. split; [exact H1|]. now apply H5.
Defined.

(** ** C6: no upload after submission *)

(** C6.  For a job of a reachable store whose status is ['pending'] or
    ['completed'], an upload call by any caller, for any index, with any form
    and any blob outcome throws the 404 of the guarded lookup, leaves the
    store (blobs, JobFile rows, counters) as it was and writes nothing. *)
Theorem upload_refused_after_submit
  (env : Env) (s : Store) (j : Jobs.row) (userEmail : string) (fileIndex : Z)
  (formData : FormData) :
  Served s -> In j (jobs s) ->
  Jobs.status j = "pending"%string \/ Jobs.status j = "completed"%string ->
  run (uploadFile env userEmail (Jobs.id j) fileIndex formData) s
  = (inl file_not_found, s, []).
Proof.
  intros HR Hj Hst. pose proof (Served_Consistent s HR) as C.
  rewrite uploadFile_run.
  rewrite (select_fileRow_not_draft s j fileIndex userEmail (ids_unique s C) Hj);
    [reflexivity|].
  destruct Hst as [E|E]; rewrite E; discriminate.
Qed.

(** Scenario A after its submit. *)
Definition submitted : Store := serve env_ok (PostSubmit owner "job-1") uploaded_all.

Lemma Reach_submitted : Reach submitted.
Proof. apply Reach_serve; [exact Reach_uploaded_all|reflexivity]. Qed.

Lemma upload_refused_after_submit_witness :
  run (uploadFile env_ok owner "job-1" 1 (form_of [x01])) submitted
  = (inl file_not_found, submitted, []).
Proof.
  apply (upload_refused_after_submit env_ok submitted (job1 "pending" 3)).
  - exact (Reach_Served _ Reach_submitted).
  - vm_compute. left. reflexivity.
  - left. reflexivity.
Defined.

(** ** C7: a job of somebody else looks like no job *)

(** C7.  For a job [j] of a reachable store, a caller who is not its owner
    and any identifier [absent] that no job has: upload, get-status and submit
    each end, on [j] as on [absent], in the same 404 with the same message,
    the store untouched and nothing written. *)
Theorem foreign_job_looks_absent
  (env : Env) (s : Store) (j : Jobs.row) (userEmail absent : string) (fileIndex : Z)
  (formData : FormData) :
  Served s -> In j (jobs s) -> Jobs.user_email j <> userEmail ->
  job_exists absent s = false ->
  (run (uploadFile env userEmail (Jobs.id j) fileIndex formData) s
   = (inl file_not_found, s, [])
   /\ run (uploadFile env userEmail absent fileIndex formData) s
      = (inl file_not_found, s, []))
  /\ (run (getJobStatus userEmail (Jobs.id j)) s = (inl job_not_found, s, [])
      /\ run (getJobStatus userEmail absent) s = (inl job_not_found, s, []))
  /\ (run (submitJob userEmail (Jobs.id j)) s = (inl job_not_found, s, [])
      /\ run (submitJob userEmail absent) s = (inl job_not_found, s, [])).
Proof.
  intros HR Hj Hne Habs. pose proof (ids_unique s (Served_Consistent s HR)) as Hnd.
  rewrite !uploadFile_run, !getJobStatus_run, !submitJob_run.
  rewrite (select_fileRow_not_owner s j fileIndex userEmail Hnd Hj Hne).
  rewrite (select_fileRow_absent s absent fileIndex userEmail Habs).
  rewrite (select_job_of_other s j userEmail Hnd Hj Hne).
  rewrite (select_job_of_absent s absent userEmail Habs).
  repeat split.
Qed.

Lemma foreign_job_looks_absent_witness :
  run (getJobStatus "eve@example.com" "job-1") drafted
  = run (getJobStatus "eve@example.com" "job-9") drafted
  /\ run (submitJob "eve@example.com" "job-1") drafted
     = run (submitJob "eve@example.com" "job-9") drafted
  /\ run (uploadFile env_ok "eve@example.com" "job-1" 1 (form_of [x01])) drafted
     = run (uploadFile env_ok "eve@example.com" "job-9" 1 (form_of [x01])) drafted.
Proof.
  destruct (foreign_job_looks_absent env_ok drafted (job1 "draft" 0) "eve@example.com"
              "job-9" 1 (form_of [x01])) as [[U1 U2] [[G1 G2] [S1 S2]]].
  - exact (Reach_Served _ Reach_drafted).
  - vm_compute. left. reflexivity.
  - discriminate.
  - reflexivity.
  - simpl in U1, G1, S1. rewrite U1, U2, G1, G2, S1, S2. repeat split.
Defined.

(** ** C8: the blob is written before the rows are touched *)

Definition is_db_write (e : Event) : Prop :=
  match e with
  | DbRun _ _ | DbBatch _ => True
  | BucketPut _ _ => False
  end.

(** C8.  In every upload call the trace of writes is empty and the store
    untouched, or the trace starts with the completed put of the payload
    under the key of the looked-up slot and only then come the UPDATEs of the
    JobFile row and of the counter.  When the put does not resolve the call
    throws, the store is left as it was and nothing is written. *)
Theorem rows_follow_blob
  (env : Env) (userEmail jobId : string) (fileIndex : Z) (formData : FormData)
  (s : Store) :
  let r := run (uploadFile env userEmail jobId fileIndex formData) s in
  ((trace_of r = [] /\ store_of r = s)
   \/ exists fileRow file rest,
        select_fileRow jobId fileIndex userEmail s = Some fileRow
        /\ bucket_put_resolves env = true
        /\ trace_of r = BucketPut (JobFiles.storage_key fileRow) file :: rest
        /\ Forall is_db_write rest
        /\ bucket_get (JobFiles.storage_key fileRow) (bucket (store_of r)) = Some file)
  /\ (bucket_put_resolves env = false ->
      trace_of r = [] /\ store_of r = s
      /\ exists e, outcome_of r = inl e).
Proof.
  intros r. unfold r. rewrite uploadFile_run.
  destruct (select_fileRow jobId fileIndex userEmail s) as [fileRow|].
  2:{ split; [left; split; reflexivity|]. intros _. repeat split. now eexists. }
  destruct (formData_get "file" formData) as [[str|file]|].
  1,3: split; [left; split; reflexivity|]; intros _; repeat split; now eexists.
  destruct (bucket_put_resolves env).
  2:{ split; [left; split; reflexivity|]. intros _. repeat split. now eexists. }
  split; [|discriminate]. right.
  exists fileRow, file. eexists. repeat split.
  - unfold uploaded_trace.
    destruct (0 <? changes_where (pending_slot jobId fileIndex) (job_files s));
      repeat constructor.
  - apply bucket_get_put.
Qed.

(** ** C9: an upload without a file *)

(** C9.  For a draft job [j] of the caller and a registered slot [f] of it,
    an upload whose form has no ['file'] entry, or a string under it, throws
    the 400 [Missing "file" field.], leaves the store as it was and writes
    nothing. *)
Theorem upload_without_file_changes_nothing
  (env : Env) (s : Store) (j : Jobs.row) (f : JobFiles.row) (formData : FormData) :
  In j (jobs s) -> Jobs.status j = "draft"%string ->
  In f (job_files s) -> JobFiles.job_id f = Jobs.id j ->
  (formData_get "file" formData = None
   \/ exists str, formData_get "file" formData = Some (FormString str)) ->
  let r :=
    run (uploadFile env (Jobs.user_email j) (Jobs.id j) (JobFiles.file_index f) formData) s in
  r = (inl missing_file_field, s, []) /\ http_status (outcome_of r) = 400.
Proof.
  intros Hj Hdraft Hf Ejob Hform r. unfold r. rewrite uploadFile_run.
  pose proof (select_fileRow_found s j f Hj Hf Ejob Hdraft) as Hfound.
  destruct (select_fileRow (Jobs.id j) (JobFiles.file_index f) (Jobs.user_email j) s);
    [|contradiction].
  destruct Hform as [->|[str ->]]; split; reflexivity.
Qed.

Lemma upload_without_file_changes_nothing_witness :
  run (uploadFile env_ok owner "job-1" 1 [("file"%string, FormString "f1.png")]) drafted
  = (inl missing_file_field, drafted, []).
Proof.
  apply (upload_without_file_changes_nothing env_ok drafted (job1 "draft" 0) slot1
           [("file"%string, FormString "f1.png")]).
  - vm_compute. left. reflexivity.
  - reflexivity.
  - vm_compute. right. left. reflexivity.
  - reflexivity.
  - right. exists "f1.png"%string. reflexivity.
Defined.

(** ** C10: the re-read of the job row *)

Lemma select_job_exists (jobId : string) (s : Store) :
  job_exists jobId s = true -> select_job jobId s <> None.
Proof.
  intros H. unfold job_exists in H. apply existsb_exists in H.
  destruct H as [j [Hj E]]. unfold select_job.
  now apply (first_filter_found (has_id jobId) (jobs s) j).
Qed.

Lemma job_exists_uploaded (jobId jid : string) (fileIndex : Z) (key : string) (file : Bytes)
  (s : Store) :
  job_exists jid (uploaded_store jobId fileIndex key file s) = job_exists jid s.
Proof.
  apply job_exists_same_ids. unfold uploaded_store. simpl.
  destruct (0 <? changes_where (pending_slot jobId fileIndex) (job_files s));
    [|reflexivity].
  apply map_update_where. reflexivity.
Qed.

(** C10.  In any store, whenever the guarded lookup of an upload call finds a
    row, the row of the job is still there when the handler reads it back
    after its writes; so no upload call ever throws the 500
    [Failed to retrieve job state.]. *)
Theorem upload_reread_finds_job
  (env : Env) (userEmail jobId : string) (fileIndex : Z) (formData : FormData)
  (s : Store) :
  (forall fileRow file,
     select_fileRow jobId fileIndex userEmail s = Some fileRow ->
     select_job jobId
       (uploaded_store jobId fileIndex (JobFiles.storage_key fileRow) file s) <> None)
  /\ outcome_of (run (uploadFile env userEmail jobId fileIndex formData) s)
     <> inl retrieve_failed.
Proof.
  assert (Hre : forall fileRow file,
            select_fileRow jobId fileIndex userEmail s = Some fileRow ->
            select_job jobId
              (uploaded_store jobId fileIndex (JobFiles.storage_key fileRow) file s) <> None).
  { intros fileRow file Hsel. apply select_job_exists. rewrite job_exists_uploaded.
    apply select_fileRow_inv in Hsel. destruct Hsel as [_ [_ [_ [j [Hj [<- _]]]]]].
    now apply job_exists_in. }
  split; [exact Hre|].
  rewrite uploadFile_run.
  destruct (select_fileRow jobId fileIndex userEmail s) as [fileRow|] eqn:Hsel;
    [|discriminate].
  destruct (formData_get "file" formData) as [[str|file]|]; try discriminate.
  destruct (bucket_put_resolves env); [|discriminate].
  cbv zeta. unfold outcome_of. simpl.
  specialize (Hre fileRow file eq_refl).
  destruct (select_job jobId
              (uploaded_store jobId fileIndex (JobFiles.storage_key fileRow) file s));
    [discriminate|contradiction].
Qed.

(** ** C3: the writes of a draft registration *)

(** Every row of the job is there, or none is. *)
Definition all_or_nothing (jobId : string) (req : CreateDraftRequest) (s : Store) : Prop :=
  (job_exists jobId s = true
   /\ length (files_of jobId s) = length (fileMeta req)
   /\ length (recipients_of jobId s) = length (recipients req))
  \/ (job_exists jobId s = false
      /\ files_of jobId s = []
      /\ recipients_of jobId s = []).

(** The store a completed write leaves. *)
Definition after_write (e : Event) (s : Store) : Store :=
  match e with
  | DbRun q _ => match exec q s with Some (s', _) => s' | None => s end
  | DbBatch qs => match exec_all qs s with Some s' => s' | None => s end
  | BucketPut key body => with_bucket (bucket_put key body (bucket s)) s
  end.

(** The stores a request passes through: the store after each of its writes,
    in the order of its [await]s.  A request served between two of them reads
    the store the earlier write has left. *)
Fixpoint stores_passed (writes : list Event) (s : Store) : list Store :=
  match writes with
  | [] => []
  | e :: writes' => after_write e s :: stores_passed writes' (after_write e s)
  end.

(** The registration of Scenario A when [DB.batch] rejects: the job row of the
    first statement stays, with [total_files = 3], and has no JobFile and no
    Recipient row; get-status shows it to its owner. *)
Lemma createDraft_leaves_job_row_alone :
  let r := run (createDraft env_batch_fails owner three_files) signed_up in
  outcome_of r = inl StoreFailure
  /\ jobs (store_of r) = [job1 "draft" 0]
  /\ job_files (store_of r) = []
  /\ job_recipients (store_of r) = []
  /\ run (getJobStatus owner "job-1") (store_of r)
     = (inr (json (JobStatusResponse "job-1" "draft" 3 0 []) 200), store_of r, []).
Proof. vm_compute. repeat split. Qed.


(** The same registration with the batch completing passes through the store
    with the job row alone before it reaches the one with every row. *)
Example createDraft_passes_job_row_alone :
  let r := run (createDraft env_ok owner three_files) signed_up in
  stores_passed (trace_of r) signed_up = [job_alone; drafted]
  /\ store_of r = drafted
  /\ ~ all_or_nothing "job-1" three_files job_alone.
Proof.
  split; [reflexivity|]. split; [reflexivity|].
  intros [[_ [H _]]|[H _]]; vm_compute in H; discriminate.
Qed.

(** A caller with no row in [users] (the subject of an administrator's token,
    which the guard of the job routes lets through): the INSERT of the job row
    is rejected by the foreign key and nothing is written. *)
Example createDraft_refused_without_user_row :
  run (createDraft env_ok "admin@example.com" three_files) signed_up
  = (inl StoreFailure, signed_up, [])
  /\ http_status (inl StoreFailure) = 500.
Proof. split; reflexivity. Qed.

Lemma recipients_of_drafted (env : Env) (userEmail : string) (req : CreateDraftRequest)
  (s : Store) :
  Consistent s -> job_exists (randomUUID env 0) s = false ->
  recipients_of (randomUUID env 0) (drafted_store env userEmail req s)
  = draft_recipients env req.
Proof.
  intros C Hfresh. unfold recipients_of, drafted_store. simpl. rewrite filter_app.
  change (filter (fun r => String.eqb (JobRecipients.job_id r) (randomUUID env 0))
            (job_recipients s))
    with (recipients_of (randomUUID env 0) s).
  rewrite (recipients_of_absent _ _ C Hfresh). simpl.
  apply filter_all. intros r Hr. apply String.eqb_eq.
  pose proof (draft_recipients_job env req) as H. rewrite Forall_forall in H. now apply H.
Qed.





(** ** The scenarios of the specification, run on the model *)

(** Scenario A: three files; index 1, index 1 again, then 2 (once failing at
    the blob store) and 0; submit; get-status. *)
Example scenario_A_counter_after_each_upload :
  map (fun n => option_map Jobs.uploaded_files
                  (select_job "job-1" (serve_all (firstn n scenario_uploads) drafted)))
    [0; 1; 2; 3; 4; 5]%nat
  = [Some 0; Some 1; Some 1; Some 1; Some 2; Some 3].
Proof. vm_compute. reflexivity. Qed.

Example scenario_A_status_after_submit :
  outcome_of (run (getJobStatus owner "job-1") submitted)
  = inr (json (JobStatusResponse "job-1" "pending" 3 3 []) 200).
Proof. vm_compute. reflexivity. Qed.

(** Scenario B: two files, only index 0 uploaded, submit. *)
Definition two_files : CreateDraftRequest :=
  mkCreateDraftRequest
    (mkSecurityOptions "SECURED" false false false false false)
    [mkRecipient "r@example.com" csv]
    [mkDraftFileMetaItem "a" "f0.png" 10; mkDraftFileMetaItem "a" "f1.png" 20].

Example scenario_B_submit_refused :
  let s := serve env_ok (PutFile owner "job-1" 0 (form_of [x00]))
             (serve env_ok (PostDraft owner two_files) signed_up) in
  run (submitJob owner "job-1") s = (inl not_all_uploaded, s, [])
  /\ option_map Jobs.status (select_job "job-1" s) = Some "draft"%string.
Proof. vm_compute. split; reflexivity. Qed.

(** Scenario C: no file at all. *)
Example scenario_C_empty_draft_rejected :
  let req := mkCreateDraftRequest (security two_files) (recipients two_files) [] in
  run (handler env_ok (PostDraft owner req)) signed_up
  = (inr (json (SchemaIssues ["At least one file is required."%string]) 400),
     signed_up, [])
  /\ run (getJobStatus owner "job-1") signed_up = (inl job_not_found, signed_up, []).
Proof. vm_compute. split; reflexivity. Qed.

(** * Further properties of the job routes *)

(** ** The shapes a request can give a store *)

(** What one served request does to a store: nothing, a registration (whole,
    or the job row alone when the batch rejects), an upload to a looked-up
    slot, a submission of a draft, or a completion of a pending job. *)
Inductive Transition (env : Env) (s : Store) : Request -> Store -> Prop :=
| T_none (r : Request) : Transition env s r s
| T_draft (userEmail : string) (req : CreateDraftRequest) :
    job_exists (randomUUID env 0) s = false ->
    draft_issues req = [] ->
    db_batch_resolves env = true ->
    Transition env s (PostDraft userEmail req) (drafted_store env userEmail req s)
| T_job_alone (userEmail : string) (req : CreateDraftRequest) :
    job_exists (randomUUID env 0) s = false ->
    draft_issues req = [] ->
    db_batch_resolves env = false ->
    Transition env s (PostDraft userEmail req)
      (with_jobs (jobs s ++ [draft_job env userEmail req]) s)
| T_upload (userEmail jobId : string) (fileIndex : Z) (formData : FormData)
    (fileRow : JobFiles.row) (file : Bytes) :
    select_fileRow jobId fileIndex userEmail s = Some fileRow ->
    formData_get "file" formData = Some (FormFile file) ->
    bucket_put_resolves env = true ->
    Transition env s (PutFile userEmail jobId fileIndex formData)
      (uploaded_store jobId fileIndex (JobFiles.storage_key fileRow) file s)
| T_submit (userEmail jobId : string) (jobRow : Jobs.row) :
    select_job_of jobId userEmail s = Some jobRow ->
    Jobs.status jobRow = "draft"%string ->
    Jobs.total_files jobRow <= Jobs.uploaded_files jobRow ->
    Transition env s (PostSubmit userEmail jobId)
      (with_jobs (update_where (has_id jobId) (Jobs.set_status "pending") (jobs s)) s)
| T_complete (userEmail jobId : string) (jobRow : Jobs.row) :
    select_job_of jobId userEmail s = Some jobRow ->
    Jobs.status jobRow = "pending"%string ->
    Transition env s (PostComplete userEmail jobId)
      (with_jobs (update_where (has_id jobId) (Jobs.set_status "completed") (jobs s)) s).

Lemma negb_eqb_false (a b : string) : negb (String.eqb a b) = false -> a = b.
Proof. intros H. apply negb_false_iff in H. now apply String.eqb_eq. Qed.

Lemma serve_transition (env : Env) (r : Request) (s : Store) :
  Transition env s r (serve env r s).
Proof.
  unfold serve. destruct r as [u req|u jobId i fd|u jobId|u jobId|u jobId]; simpl.
  - destruct (draft_issues req) eqn:Hissues; [|apply T_none].
    rewrite createDraft_run.
    destruct (job_exists (randomUUID env 0) s) eqn:Hfresh; [apply T_none|].
    destruct (negb (user_exists u s)); [apply T_none|].
    destruct (db_batch_resolves env) eqn:Hbatch.
    + now apply T_draft.
    + now apply T_job_alone.
  - destruct (param_issues i); [|apply T_none]. rewrite uploadFile_run.
    destruct (select_fileRow jobId i u s) as [fileRow|] eqn:Hsel; [|apply T_none].
    destruct (formData_get "file" fd) as [[str|file]|] eqn:Hform; try apply T_none.
    destruct (bucket_put_resolves env) eqn:Hput; [|apply T_none].
    now apply T_upload.
  - rewrite submitJob_run.
    destruct (select_job_of jobId u s) as [jobRow|] eqn:Hsel; [|apply T_none].
    destruct (negb (String.eqb (Jobs.status jobRow) "draft")) eqn:Hst; [apply T_none|].
    destruct (Jobs.uploaded_files jobRow <? Jobs.total_files jobRow) eqn:Hlt; [apply T_none|].
    apply (T_submit env s u jobId jobRow Hsel (negb_eqb_false _ _ Hst)).
    now apply Z.ltb_ge.
  - rewrite getJobStatus_run.
    destruct (select_job_of jobId u s) as [jobRow|]; apply T_none.
  - rewrite completeJob_run.
    destruct (select_job_of jobId u s) as [jobRow|] eqn:Hsel; [|apply T_none].
    destruct (negb (String.eqb (Jobs.status jobRow) "pending")) eqn:Hst; [apply T_none|].
    apply (T_complete env s u jobId jobRow Hsel (negb_eqb_false _ _ Hst)).
Qed.

Lemma select_job_of_inv (jobId userEmail : string) (s : Store) (jobRow : Jobs.row) :
  select_job_of jobId userEmail s = Some jobRow ->
  In jobRow (jobs s) /\ Jobs.id jobRow = jobId /\ Jobs.user_email jobRow = userEmail.
Proof.
  unfold select_job_of. intros H. apply first_in in H. apply filter_In in H.
  destruct H as [Hin Hc]. apply andb_true_iff in Hc. destruct Hc as [E1 E2].
  unfold has_id in E1. apply String.eqb_eq in E1, E2. auto.
Qed.

(** ** The life of a job row *)

(** A job row and what a request may make of it: the identifier, the owner,
    the security options and [total_files] stay; [uploaded_files] stays or
    goes up by one; the status stays, or goes from ['draft'] to ['pending'],
    or from ['pending'] to ['completed']. *)
Definition advances (j j' : Jobs.row) : Prop :=
  Jobs.id j' = Jobs.id j
  /\ Jobs.user_email j' = Jobs.user_email j
  /\ Jobs.security_text j' = Jobs.security_text j
  /\ Jobs.anti_screenshot j' = Jobs.anti_screenshot j
  /\ Jobs.anti_copy j' = Jobs.anti_copy j
  /\ Jobs.view_limit j' = Jobs.view_limit j
  /\ Jobs.domain_restrict j' = Jobs.domain_restrict j
  /\ Jobs.expiration j' = Jobs.expiration j
  /\ Jobs.total_files j' = Jobs.total_files j
  /\ (Jobs.uploaded_files j' = Jobs.uploaded_files j
      \/ Jobs.uploaded_files j' = Jobs.uploaded_files j + 1)
  /\ (Jobs.status j' = Jobs.status j
      \/ (Jobs.status j = "draft"%string /\ Jobs.status j' = "pending"%string)
      \/ (Jobs.status j = "pending"%string /\ Jobs.status j' = "completed"%string)).

Lemma advances_refl (j : Jobs.row) : advances j j.
Proof. unfold advances. repeat split; auto. Qed.

Lemma transition_advances (env : Env) (r : Request) (s s' : Store) (j : Jobs.row) :
  NoDup (map Jobs.id (jobs s)) -> Transition env s r s' -> In j (jobs s) ->
  exists j', In j' (jobs s') /\ advances j j'.
Proof.
  intros Hnd T Hj. destruct T as [r|u req _ _ _|u req _ _ _|u jobId i fd fr file _ _ _
                                  |u jobId jr Hsel Hst _|u jobId jr Hsel Hst].
  - exists j. split; [exact Hj|apply advances_refl].
  - exists j. split; [|apply advances_refl]. simpl. apply in_or_app. now left.
  - exists j. split; [|apply advances_refl]. simpl. apply in_or_app. now left.
  - unfold uploaded_store. simpl.
    destruct (0 <? changes_where (pending_slot jobId i) (job_files s)).
    + exists (if has_id jobId j
              then Jobs.set_uploaded_files (Jobs.uploaded_files j + 1) j else j).
      split.
      { now apply (in_update_where (has_id jobId)
                     (fun x => Jobs.set_uploaded_files (Jobs.uploaded_files x + 1) x)). }
      destruct (has_id jobId j); [|apply advances_refl].
      unfold advances. simpl. repeat split; auto.
    + exists j. split; [exact Hj|apply advances_refl].
  - apply select_job_of_inv in Hsel. destruct Hsel as [Hjr [Eid _]].
    exists (if has_id jobId j then Jobs.set_status "pending" j else j).
    split; [now apply (in_update_where (has_id jobId))|].
    destruct (has_id jobId j) eqn:Hid; [|apply advances_refl].
    unfold has_id in Hid. apply String.eqb_eq in Hid.
    assert (jr = j) by (apply (ids_determine_job s); auto; congruence). subst jr.
    unfold advances. simpl. repeat split; auto.
  - apply select_job_of_inv in Hsel. destruct Hsel as [Hjr [Eid _]].
    exists (if has_id jobId j then Jobs.set_status "completed" j else j).
    split; [now apply (in_update_where (has_id jobId))|].
    destruct (has_id jobId j) eqn:Hid; [|apply advances_refl].
    unfold has_id in Hid. apply String.eqb_eq in Hid.
    assert (jr = j) by (apply (ids_determine_job s); auto; congruence). subst jr.
    unfold advances. simpl. repeat split; auto.
Qed.

(** X1.  Whatever request is served on a reachable store, with whatever
    outcome of the blob store and of the batch, every job row is still there
    afterwards with the same identifier, owner, security options and
    [total_files]; its [uploaded_files] is the same or one more; its status is
    the same or has moved from ['draft'] to ['pending'] or from ['pending'] to
    ['completed'].  No request deletes a job, lowers a counter or moves a
    status backwards. *)
Theorem job_rows_only_advance (env : Env) (r : Request) (s : Store) (j : Jobs.row) :
  Served s -> In j (jobs s) ->
  exists j', In j' (jobs (serve env r s)) /\ advances j j'.
Proof.
  intros HR Hj.
  apply (transition_advances env r s); auto using serve_transition.
  apply (ids_unique s (Served_Consistent s HR)).
Qed.

Lemma job_rows_only_advance_witness :
  exists j', In j' (jobs (serve env_ok (PostSubmit owner "job-1") uploaded_all))
             /\ advances (job1 "draft" 3) j'.
Proof.
  apply (job_rows_only_advance env_ok (PostSubmit owner "job-1") uploaded_all (job1 "draft" 3)).
  - exact (Reach_Served _ Reach_uploaded_all).
  - vm_compute. left. reflexivity.
Defined.

Lemma transition_job_origin (env : Env) (r : Request) (s s' : Store) (j' : Jobs.row) :
  NoDup (map Jobs.id (jobs s)) -> Transition env s r s' -> In j' (jobs s') ->
  (exists j, In j (jobs s) /\ advances j j')
  \/ (exists userEmail req,
        r = PostDraft userEmail req /\ draft_issues req = []
        /\ j' = draft_job env userEmail req).
Proof.
  intros Hnd T Hj'. destruct T as [r|u req _ Hok _|u req _ Hok _|u jobId i fd fr file _ _ _
                                   |u jobId jr Hsel Hst _|u jobId jr Hsel Hst].
  - left. exists j'. split; [exact Hj'|apply advances_refl].
  - simpl in Hj'. apply in_app_or in Hj'. destruct Hj' as [Hj'|[<-|[]]].
    + left. exists j'. split; [exact Hj'|apply advances_refl].
    + right. now exists u, req.
  - simpl in Hj'. apply in_app_or in Hj'. destruct Hj' as [Hj'|[<-|[]]].
    + left. exists j'. split; [exact Hj'|apply advances_refl].
    + right. now exists u, req.
  - left. unfold uploaded_store in Hj'. simpl in Hj'.
    destruct (0 <? changes_where (pending_slot jobId i) (job_files s)).
    + unfold count_up, update_where in Hj'. apply in_map_iff in Hj'.
      destruct Hj' as [j [<- Hj]]. exists j. split; [exact Hj|].
      destruct (has_id jobId j); [|apply advances_refl].
      unfold advances. simpl. repeat split; auto.
    + exists j'. split; [exact Hj'|apply advances_refl].
  - left. simpl in Hj'. unfold update_where in Hj'. apply in_map_iff in Hj'.
    destruct Hj' as [j [<- Hj]]. exists j. split; [exact Hj|].
    apply select_job_of_inv in Hsel. destruct Hsel as [Hjr [Eid _]].
    destruct (has_id jobId j) eqn:Hid; [|apply advances_refl].
    unfold has_id in Hid. apply String.eqb_eq in Hid.
    assert (jr = j) by (apply (ids_determine_job s); auto; congruence). subst jr.
    unfold advances. simpl. repeat split; auto.
  - left. simpl in Hj'. unfold update_where in Hj'. apply in_map_iff in Hj'.
    destruct Hj' as [j [<- Hj]]. exists j. split; [exact Hj|].
    apply select_job_of_inv in Hsel. destruct Hsel as [Hjr [Eid _]].
    destruct (has_id jobId j) eqn:Hid; [|apply advances_refl].
    unfold has_id in Hid. apply String.eqb_eq in Hid.
    assert (jr = j) by (apply (ids_determine_job s); auto; congruence). subst jr.
    unfold advances. simpl. repeat split; auto.
Qed.

(** The three statuses the routes write. *)
Definition known_status (status : string) : Prop :=
  status = "draft"%string \/ status = "pending"%string \/ status = "completed"%string.

(** X2.  In every store the service can reach, the status of every job is
    ['draft'], ['pending'] or ['completed']: the open text column never holds
    anything else. *)
Theorem reachable_statuses (s : Store) (j : Jobs.row) :
  Served s -> In j (jobs s) -> known_status (Jobs.status j).
Proof.
  intros HR. revert j. induction HR as [|s e HR IH _|s env r HR IH]; intros j' Hj'.
  - destruct Hj'.
  - exact (IH j' Hj').
  - destruct (transition_job_origin env r s (serve env r s) j'
                (ids_unique s (Served_Consistent s HR)) (serve_transition env r s) Hj')
      as [[j [Hj Hadv]]|[u [req [_ [_ ->]]]]].
    + specialize (IH j Hj). unfold advances in Hadv.
      destruct Hadv as [_ [_ [_ [_ [_ [_ [_ [_ [_ [_ Hst]]]]]]]]]].
      unfold known_status in *.
      destruct Hst as [E|[[_ E]|[_ E]]]; rewrite E; auto.
    + left. reflexivity.
Qed.

Lemma reachable_statuses_witness : known_status (Jobs.status (job1 "pending" 3)).
Proof.
  apply (reachable_statuses submitted (job1 "pending" 3)).
  - exact (Reach_Served _ Reach_submitted).
  - vm_compute. left. reflexivity.
Defined.

(** ** The completion route *)

(** X3.  For a job [j] of a reachable store:
    - complete by its owner throws the 400 [Job is not in pending state.] and
      changes nothing unless the status is ['pending'];
    - when the status is ['pending'] it answers 200, the row of the job gets
      the status ['completed'] with its counters as they were, and the other
      tables and the blobs are untouched;
    - by any other caller it throws the 404 [Job not found.] and changes
      nothing. *)
Theorem complete_gate (s : Store) (j : Jobs.row) :
  Served s -> In j (jobs s) ->
  let r := run (completeJob (Jobs.user_email j) (Jobs.id j)) s in
  (Jobs.status j <> "pending"%string -> r = (inl not_pending, s, []))
  /\ (Jobs.status j = "pending"%string ->
      outcome_of r = inr (json (SubmitJobResponse (Jobs.id j)) 200)
      /\ select_job (Jobs.id j) (store_of r) = Some (Jobs.set_status "completed" j)
      /\ jobs (store_of r)
         = update_where (has_id (Jobs.id j)) (Jobs.set_status "completed") (jobs s)
      /\ job_files (store_of r) = job_files s
      /\ job_recipients (store_of r) = job_recipients s
      /\ bucket (store_of r) = bucket s)
  /\ (forall userEmail, Jobs.user_email j <> userEmail ->
      run (completeJob userEmail (Jobs.id j)) s = (inl job_not_found, s, [])).
Proof.
  intros HR Hj r. pose proof (Served_Consistent s HR) as C. unfold r.
  split; [|split].
  - intros Hst. rewrite completeJob_run.
    rewrite (select_job_of_owner s j (ids_unique s C) Hj).
    apply String.eqb_neq in Hst. now rewrite Hst.
  - intros Hst. rewrite completeJob_run.
    rewrite (select_job_of_owner s j (ids_unique s C) Hj).
    rewrite Hst. simpl. unfold outcome_of, store_of. simpl.
    repeat split. now apply status_updated_row.
  - intros u Hne. rewrite completeJob_run.
    now rewrite (select_job_of_other s j u (ids_unique s C) Hj Hne).
Qed.

Lemma complete_gate_witness :
  outcome_of (run (completeJob owner "job-1") submitted)
  = inr (json (SubmitJobResponse "job-1") 200)
  /\ select_job "job-1" (store_of (run (completeJob owner "job-1") submitted))
     = Some (job1 "completed" 3).
Proof.
  pose proof (complete_gate submitted (job1 "pending" 3)) as H. cbv zeta in H.
  destruct H as [_ [H _]].
  - exact (Reach_Served _ Reach_submitted).
  - vm_compute. left. reflexivity.
  - destruct (H eq_refl) as [H1 [H2 _]]. split; [exact H1|exact H2].
Defined.

(** ** The life of a JobFile row *)

(** A JobFile row and what a request may make of it: everything but the
    upload status stays, and the status stays or goes from ['pending'] to
    ['uploaded']. *)
Definition settles (f f' : JobFiles.row) : Prop :=
  JobFiles.job_id f' = JobFiles.job_id f
  /\ JobFiles.file_index f' = JobFiles.file_index f
  /\ JobFiles.storage_key f' = JobFiles.storage_key f
  /\ JobFiles.original_name f' = JobFiles.original_name f
  /\ JobFiles.folder_name f' = JobFiles.folder_name f
  /\ JobFiles.size_bytes f' = JobFiles.size_bytes f
  /\ (JobFiles.upload_status f' = JobFiles.upload_status f
      \/ (JobFiles.upload_status f = "pending"%string
          /\ JobFiles.upload_status f' = "uploaded"%string)).

Lemma settles_refl (f : JobFiles.row) : settles f f.
Proof. unfold settles. repeat split; auto. Qed.

Lemma flip_settles (jobId : string) (fileIndex : Z) (f : JobFiles.row) :
  settles f (if pending_slot jobId fileIndex f
             then JobFiles.set_upload_status "uploaded" f else f).
Proof.
  destruct (pending_slot jobId fileIndex f) eqn:E; [|apply settles_refl].
  apply pending_slot_true in E. destruct E as [_ [_ E]].
  unfold settles. simpl. repeat split; auto.
Qed.

Lemma transition_settles (env : Env) (r : Request) (s s' : Store) (f : JobFiles.row) :
  Transition env s r s' -> In f (job_files s) ->
  exists f', In f' (job_files s') /\ settles f f'.
Proof.
  intros T Hf. destruct T as [r|u req _ _ _|u req _ _ _|u jobId i fd fr file _ _ _
                              |u jobId jr _ _ _|u jobId jr _ _];
    try (exists f; split; [exact Hf|apply settles_refl]).
  - exists f. split; [|apply settles_refl]. simpl. apply in_or_app. now left.
  - exists (if pending_slot jobId i f then JobFiles.set_upload_status "uploaded" f else f).
    split; [|apply flip_settles].
    simpl. unfold flip_slot. now apply in_update_where.
Qed.

(** X4.  Whatever request is served on whatever store, every JobFile row is
    still there afterwards with its job, index, storage key, name, folder and
    size; its upload status is the same or has gone from ['pending'] to
    ['uploaded'].  No request removes a slot, gives it another key or takes
    an upload back. *)
Theorem job_file_rows_settle (env : Env) (r : Request) (s : Store) (f : JobFiles.row) :
  In f (job_files s) ->
  exists f', In f' (job_files (serve env r s)) /\ settles f f'.
Proof. intros Hf. apply (transition_settles env r s); auto using serve_transition. Qed.

Lemma job_file_rows_settle_witness :
  exists f', In f' (job_files (serve env_ok (PutFile owner "job-1" 1 (form_of [x01])) drafted))
             /\ settles slot1 f'.
Proof.
  apply (job_file_rows_settle env_ok (PutFile owner "job-1" 1 (form_of [x01])) drafted slot1).
  vm_compute. right. left. reflexivity.
Defined.

(** ** An upload and the rest of the store *)

Lemma bucket_get_put_other (key key' : string) (body : Bytes) (b : list (string * Bytes)) :
  key' <> key -> bucket_get key (bucket_put key' body b) = bucket_get key b.
Proof.
  intros Hne. unfold bucket_get, bucket_put. simpl.
  apply String.eqb_neq in Hne. rewrite Hne.
  induction b as [|[k v] b IH]; simpl; [reflexivity|].
  destruct (String.eqb k key') eqn:E; simpl.
  - apply String.eqb_eq in E. subst k. now rewrite Hne.
  - destruct (String.eqb k key); [reflexivity|exact IH].
Qed.

(** X5.  An upload call for slot [fileIndex] of job [jobId], on any store and
    with any outcome, leaves as they are: every job row with another
    identifier, every JobFile row of another job, of another index or not
    pending, every Recipient row, and the blob under every key but the
    storage key of the looked-up slot. *)
Theorem upload_touches_one_slot
  (env : Env) (userEmail jobId : string) (fileIndex : Z) (formData : FormData)
  (s : Store) :
  let s' := store_of (run (uploadFile env userEmail jobId fileIndex formData) s) in
  (forall j, In j (jobs s) -> Jobs.id j <> jobId -> In j (jobs s'))
  /\ (forall f, In f (job_files s) ->
        JobFiles.job_id f <> jobId \/ JobFiles.file_index f <> fileIndex
        \/ JobFiles.upload_status f <> "pending"%string ->
        In f (job_files s'))
  /\ length (jobs s') = length (jobs s)
  /\ length (job_files s') = length (job_files s)
  /\ job_recipients s' = job_recipients s
  /\ (forall key,
        (forall fileRow, select_fileRow jobId fileIndex userEmail s = Some fileRow ->
                         JobFiles.storage_key fileRow <> key) ->
        bucket_get key (bucket s') = bucket_get key (bucket s)).
Proof.
  intros s'. unfold s'. rewrite uploadFile_run.
  destruct (select_fileRow jobId fileIndex userEmail s) as [fileRow|];
    [|now repeat split].
  destruct (formData_get "file" formData) as [[str|file]|]; try now repeat split.
  destruct (bucket_put_resolves env); [|now repeat split].
  unfold store_of. simpl. repeat split.
  - intros j Hj Hne.
    destruct (0 <? changes_where (pending_slot jobId fileIndex) (job_files s)); [|exact Hj].
    pose proof (in_update_where (has_id jobId)
                  (fun x => Jobs.set_uploaded_files (Jobs.uploaded_files x + 1) x)
                  (jobs s) j Hj) as H.
    unfold has_id in H at 1. apply String.eqb_neq in Hne. now rewrite Hne in H.
  - intros f Hf Hother.
    pose proof (in_update_where (pending_slot jobId fileIndex)
                  (JobFiles.set_upload_status "uploaded") (job_files s) f Hf) as H.
    destruct (pending_slot jobId fileIndex f) eqn:E; [|exact H].
    apply pending_slot_true in E. exfalso. tauto.
  - destruct (0 <? changes_where (pending_slot jobId fileIndex) (job_files s));
      [apply length_update_where|reflexivity].
  - apply length_update_where.
  - intros key Hkey. apply bucket_get_put_other. now apply Hkey.
Qed.

(** ** Blobs and rows *)

(** Every uploaded slot has its blob, and every blob belongs to a slot. *)
Definition blobs_match_rows (s : Store) : Prop :=
  (forall f, In f (job_files s) -> JobFiles.upload_status f = "uploaded"%string ->
     bucket_get (JobFiles.storage_key f) (bucket s) <> None)
  /\ (forall key, bucket_get key (bucket s) <> None ->
        exists f, In f (job_files s) /\ JobFiles.storage_key f = key).

Lemma bucket_get_put_kept (key key' : string) (body : Bytes) (b : list (string * Bytes)) :
  bucket_get key b <> None -> bucket_get key (bucket_put key' body b) <> None.
Proof.
  intros H. destruct (String.eqb key' key) eqn:E.
  - apply String.eqb_eq in E. subst key'. rewrite bucket_get_put. discriminate.
  - apply String.eqb_neq in E. now rewrite bucket_get_put_other.
Qed.

Lemma transition_blobs (env : Env) (r : Request) (s s' : Store) :
  Consistent s -> blobs_match_rows s -> Transition env s r s' -> blobs_match_rows s'.
Proof.
  intros C [Hrows Hkeys] T. split.
  - intros f' Hf' Hup.
    destruct T as [r|u req _ _ _|u req _ _ _|u jobId i fd fr file Hsel _ _
                   |u jobId jr _ _ _|u jobId jr _ _]; try now apply Hrows.
    + simpl in *. apply in_app_or in Hf'. destruct Hf' as [Hf'|Hf']; [now apply Hrows|].
      pose proof (draft_files_pending env req) as H. rewrite Forall_forall in H.
      rewrite (H f' Hf') in Hup. discriminate.
    + simpl in *. unfold flip_slot, update_where in Hf'. apply in_map_iff in Hf'.
      destruct Hf' as [f [<- Hf]].
      destruct (pending_slot jobId i f) eqn:E.
      * apply pending_slot_true in E. destruct E as [E1 [E2 _]].
        apply select_fileRow_inv in Hsel. destruct Hsel as [Hfr [F1 [F2 _]]].
        assert (fr = f) by (apply (file_slot_unique s); auto; congruence). subst fr.
        simpl. rewrite bucket_get_put. discriminate.
      * apply bucket_get_put_kept. now apply Hrows.
  - intros key Hkey.
    assert (Hold : bucket_get key (bucket s) <> None ->
                   exists f, In f (job_files s') /\ JobFiles.storage_key f = key).
    { intros H. destruct (Hkeys key H) as [f [Hf <-]].
      destruct (transition_settles env r s s' f T Hf) as [f' [Hf' Hs]].
      exists f'. split; [exact Hf'|]. unfold settles in Hs. tauto. }
    destruct T as [r|u req _ _ _|u req _ _ _|u jobId i fd fr file Hsel Hform Hput
                   |u jobId jr _ _ _|u jobId jr _ _]; try now apply Hold.
    simpl in Hkey.
    destruct (String.eqb (JobFiles.storage_key fr) key) eqn:E.
    + apply String.eqb_eq in E.
      destruct (select_fileRow_inv _ _ _ _ _ Hsel) as [Hfr _].
      destruct (transition_settles env (PutFile u jobId i fd) s _ fr
                  (T_upload env s u jobId i fd fr file Hsel Hform Hput) Hfr)
        as [f' [Hf' Hs]].
      exists f'. split; [exact Hf'|]. unfold settles in Hs. destruct Hs as [_ [_ [Hk _]]].
      congruence.
    + apply String.eqb_neq in E. rewrite bucket_get_put_other in Hkey by exact E.
      now apply Hold.
Qed.

(** X6.  In every store the service can reach, every JobFile row whose status
    is ['uploaded'] has a blob under its storage key, and every key of the
    blob store is the storage key of a JobFile row. *)
Theorem uploaded_rows_have_blobs (s : Store) : Served s -> blobs_match_rows s.
Proof.
  induction 1 as [|s e HR IH _|s env r HR IH].
  - split; [intros f []|]. intros key H. now contradiction H.
  - exact IH.
  - apply (transition_blobs env r s); auto using serve_transition, Served_Consistent.
Qed.

Lemma uploaded_rows_have_blobs_witness : blobs_match_rows uploaded_all.
Proof. apply (uploaded_rows_have_blobs uploaded_all). exact (Reach_Served _ Reach_uploaded_all). Defined.

(** ** Get-status after the other calls *)

(** A job whose counter has reached [total_files] has no pending row. *)
Lemma none_pending_when_all_uploaded (s : Store) (j : Jobs.row) :
  Consistent s -> In j (jobs s) -> Jobs.uploaded_files j = Jobs.total_files j ->
  select_pending (Jobs.id j) s = [].
Proof.
  intros C Hj Hall. pose proof (pending_count s j C Hj) as Hn.
  destruct (files_total s C j Hj) as [E|E].
  - now rewrite select_pending_of_job, E.
  - rewrite <- E, Hall, Z.sub_diag in Hn.
    destruct (select_pending (Jobs.id j) s); [reflexivity|simpl in Hn; lia].
Qed.

(** X7.  When a draft job of a reachable store has all its files uploaded,
    its owner's submit followed by get-status shows the status ['pending'],
    both counters at [total_files] and no pending index. *)
Theorem submit_then_status (s : Store) (j : Jobs.row) :
  Served s -> In j (jobs s) -> Jobs.status j = "draft"%string ->
  Jobs.uploaded_files j = Jobs.total_files j ->
  let s' := store_of (run (submitJob (Jobs.user_email j) (Jobs.id j)) s) in
  run (getJobStatus (Jobs.user_email j) (Jobs.id j)) s'
  = (inr (json (JobStatusResponse (Jobs.id j) "pending" (Jobs.total_files j)
                  (Jobs.total_files j) []) 200),
     s', []).
Proof.
  intros HR Hj Hdraft Hall s'. pose proof (Served_Consistent s HR) as C.
  assert (E : s' = with_jobs (update_where (has_id (Jobs.id j)) (Jobs.set_status "pending")
                                (jobs s)) s).
  { unfold s'. rewrite submitJob_run.
    rewrite (select_job_of_owner s j (ids_unique s C) Hj), Hdraft. simpl.
    rewrite Hall, Z.ltb_irrefl. reflexivity. }
  rewrite E. clear E s'.
  set (s' := with_jobs _ s).
  assert (C' : Consistent s') by now apply Consistent_status.
  assert (Hj' : In (Jobs.set_status "pending" j) (jobs s')).
  { pose proof (in_update_where (has_id (Jobs.id j)) (Jobs.set_status "pending")
                  (jobs s) j Hj) as H.
    unfold has_id in H at 1. now rewrite String.eqb_refl in H. }
  rewrite getJobStatus_run.
  pose proof (select_job_of_owner s' _ (ids_unique s' C') Hj') as Hsel.
  simpl in Hsel. rewrite Hsel. simpl.
  change (select_pending (Jobs.id j) s') with (select_pending (Jobs.id j) s).
  rewrite (none_pending_when_all_uploaded s j C Hj Hall).
  simpl. now rewrite Hall.
Qed.

Lemma submit_then_status_witness :
  run (getJobStatus owner "job-1")
    (store_of (run (submitJob owner "job-1") uploaded_all))
  = (inr (json (JobStatusResponse "job-1" "pending" 3 3 []) 200),
     store_of (run (submitJob owner "job-1") uploaded_all), []).
Proof.
  apply (submit_then_status uploaded_all (job1 "draft" 3)).
  - exact (Reach_Served _ Reach_uploaded_all).
  - vm_compute. left. reflexivity.
  - reflexivity.
  - reflexivity.
Defined.

Lemma filter_has (A : Type) (p : A -> bool) (l : list A) (x : A) :
  In x l -> p x = true -> (1 <= length (filter p l))%nat.
Proof.
  intros Hin Hp. assert (H : In x (filter p l)) by (apply filter_In; auto).
  destruct (filter p l); [contradiction|simpl; lia].
Qed.

(** X8.  When an upload call on a reachable store answers 200 with
    [uploadedFiles] and [totalFiles], the caller's get-status right after
    answers 200 for a ['draft'] job with the same two counters, and the
    uploaded index is not among its pending indices; the counter reported is
    at least 1 and at most [totalFiles]. *)
Theorem upload_answer_matches_status
  (env : Env) (userEmail jobId : string) (fileIndex : Z) (formData : FormData)
  (s : Store) (uploadedFiles totalFiles : Z) :
  Served s ->
  outcome_of (run (uploadFile env userEmail jobId fileIndex formData) s)
  = inr (json (UploadFileResponse fileIndex uploadedFiles totalFiles) 200) ->
  let s' := store_of (run (uploadFile env userEmail jobId fileIndex formData) s) in
  exists pendingIndices,
    run (getJobStatus userEmail jobId) s'
    = (inr (json (JobStatusResponse jobId "draft" totalFiles uploadedFiles pendingIndices)
              200), s', [])
    /\ ~ In fileIndex pendingIndices
    /\ 1 <= uploadedFiles <= totalFiles.
Proof.
  intros HR Hout s'. pose proof (Served_Consistent s HR) as C.
  assert (Hrun := uploadFile_run env userEmail jobId fileIndex formData s).
  destruct (select_fileRow jobId fileIndex userEmail s) as [f|] eqn:Hsel;
    [|rewrite Hrun in Hout; discriminate].
  destruct (formData_get "file" formData) as [[str|file]|] eqn:Hform;
    try (rewrite Hrun in Hout; discriminate).
  destruct (bucket_put_resolves env) eqn:Hput;
    [|rewrite Hrun in Hout; discriminate].
  clear Hrun.
  apply select_fileRow_inv in Hsel.
  destruct Hsel as [Hf [Ejob [Eidx [j [Hj [Eid [Eu Hdraft]]]]]]].
  rewrite <- Eid in Ejob. subst jobId fileIndex userEmail.
  pose proof (upload_registered env s j f formData file C Hj Hdraft Hf Ejob Hform Hput)
    as Hreg.
  unfold s'. rewrite Hreg in Hout |- *. unfold outcome_of, store_of in *. simpl in *.
  injection Hout as Hu Ht. clear s'.
  set (s' := uploaded_store (Jobs.id j) (JobFiles.file_index f) (JobFiles.storage_key f)
               file s) in *.
  assert (C' : Consistent s') by now apply Consistent_uploaded.
  destruct (uploaded_job_row s j f file C Hj Hf Ejob) as [Hj' _]. fold s' in Hj'.
  pose proof (uploaded_file_row s j f file C Hf Ejob) as Hf'. fold s' in Hf'.
  set (j' := Jobs.set_uploaded_files
               (Jobs.uploaded_files j + (if is_pending f then 1 else 0)) j) in *.
  exists (map JobFiles.file_index (select_pending (Jobs.id j) s')).
  split; [|split].
  - rewrite getJobStatus_run.
    pose proof (select_job_of_owner s' j' (ids_unique s' C') Hj') as Hsel.
    simpl in Hsel. rewrite Hsel. simpl. now rewrite Hdraft, Hu, Ht.
  - intros Hin. apply in_map_iff in Hin. destruct Hin as [g [Eg Hg]].
    unfold select_pending in Hg. apply filter_In in Hg. destruct Hg as [Hg Hc].
    apply andb_true_iff in Hc. destruct Hc as [E1 E2].
    assert (Hslot : In g (filter (pending_slot (Jobs.id j) (JobFiles.file_index f))
                            (job_files s'))).
    { apply filter_In. split; [exact Hg|]. unfold pending_slot.
      rewrite E1, E2, Eg, Z.eqb_refl. reflexivity. }
    unfold s', uploaded_store, flip_slot in Hslot. simpl in Hslot.
    rewrite update_where_settles in Hslot; [contradiction|].
    intros x. apply set_uploaded_not_pending.
  - pose proof (counter_bounded s' j' C' Hj') as Hb.
    pose proof (counter_exact s' C' j' Hj') as Hc. simpl in Hb, Hc.
    assert (H1 : (1 <= length (filter is_uploaded (files_of (Jobs.id j) s')))%nat).
    { apply (filter_has _ is_uploaded _ (JobFiles.set_upload_status "uploaded" f));
        [|reflexivity].
      apply filter_In. split; [exact Hf'|]. simpl. rewrite Ejob. apply String.eqb_refl. }
    unfold uploaded_count in Hc. lia.
Qed.

Lemma upload_answer_matches_status_witness :
  exists pendingIndices,
    run (getJobStatus owner "job-1")
      (store_of (run (uploadFile env_ok owner "job-1" 1 (form_of [x01])) drafted))
    = (inr (json (JobStatusResponse "job-1" "draft" 3 1 pendingIndices) 200),
       store_of (run (uploadFile env_ok owner "job-1" 1 (form_of [x01])) drafted), [])
    /\ ~ In 1 pendingIndices.
Proof.
  destruct (upload_answer_matches_status env_ok owner "job-1" 1 (form_of [x01]) drafted 1 3)
    as [l [H1 [H2 _]]].
  - exact (Reach_Served _ Reach_drafted).
  - reflexivity.
  - exists l. split; [exact H1|exact H2].
Defined.

(** ** The rows and storage keys of a registration *)









(** ** No job without files or recipients *)

Lemma draft_issues_none (req : CreateDraftRequest) :
  draft_issues req = [] <-> recipients req <> [] /\ fileMeta req <> [].
Proof.
  unfold draft_issues. destruct (recipients req), (fileMeta req); simpl; split;
    try discriminate; try (intros [H1 H2]; congruence); try reflexivity.
  intros _. split; discriminate.
Qed.

(** X10.  A registration whose recipient list or file list is empty is
    answered 400 by the validator and writes nothing; and so, in every store
    the service reaches while its batches complete, every job has
    [total_files] at least 1 and at least one Recipient row. *)
Theorem jobs_have_files_and_recipients (s : Store) :
  Reach s ->
  (forall env userEmail req,
     recipients req = [] \/ fileMeta req = [] ->
     exists issues,
       run (handler env (PostDraft userEmail req)) s
       = (inr (json (SchemaIssues issues) 400), s, []))
  /\ (forall j, In j (jobs s) ->
        1 <= Jobs.total_files j /\ recipients_of (Jobs.id j) s <> []).
Proof.
  intros HR. split.
  - intros env u req Hempty. simpl.
    destruct (draft_issues req) as [|i l] eqn:E.
    + apply draft_issues_none in E. tauto.
    + now exists (i :: l).
  - induction HR as [|s e HR IH _|s env r HR IH Hbatch]; [intros j []|exact IH|].
    pose proof (Reach_Consistent s HR) as C.
    intros j' Hj'.
    pose proof (serve_transition env r s) as T.
    destruct T as [r|u req Hfresh Hok _|u req _ _ Hno|u jobId i fd fr file _ _ _
                   |u jobId jr _ _ _|u jobId jr _ _].
    + now apply IH.
    + simpl in Hj'. apply in_app_or in Hj'. destruct Hj' as [Hj|[<-|[]]].
      * destruct (IH j' Hj) as [H1 H2]. split; [exact H1|].
        unfold recipients_of in *. simpl. rewrite filter_app.
        intros E. apply app_eq_nil in E. tauto.
      * apply draft_issues_none in Hok. destruct Hok as [Hr Hm]. split.
        -- simpl. destruct (fileMeta req); [congruence|simpl; lia].
        -- change (Jobs.id (draft_job env u req)) with (randomUUID env 0).
           rewrite (recipients_of_drafted env u req s C Hfresh).
           unfold draft_recipients. destruct (recipients req); [congruence|discriminate].
    + congruence.
    + unfold uploaded_store in Hj'. simpl in Hj'.
      change (recipients_of (Jobs.id j') (uploaded_store jobId i (JobFiles.storage_key fr) file s))
        with (recipients_of (Jobs.id j') s).
      destruct (0 <? changes_where (pending_slot jobId i) (job_files s)); [|now apply IH].
      apply in_count_up in Hj'. destruct Hj' as [j [Hj [E1 [E2 _]]]].
      rewrite E1, E2. now apply IH.
    + simpl in Hj'. unfold update_where in Hj'. apply in_map_iff in Hj'.
      destruct Hj' as [j [<- Hj]].
      destruct (IH j Hj) as [H1 H2].
      destruct (has_id jobId j); split; assumption.
    + simpl in Hj'. unfold update_where in Hj'. apply in_map_iff in Hj'.
      destruct Hj' as [j [<- Hj]].
      destruct (IH j Hj) as [H1 H2].
      destruct (has_id jobId j); split; assumption.
Qed.

Lemma jobs_have_files_and_recipients_witness :
  1 <= Jobs.total_files (job1 "draft" 0) /\ recipients_of "job-1" drafted <> [].
Proof.
  destruct (jobs_have_files_and_recipients drafted Reach_drafted) as [_ H].
  apply (H (job1 "draft" 0)). vm_compute. left. reflexivity.
Defined.

(** ** The registered indices *)

Lemma in_iota (i : Z) (n : nat) : In i (iota n) <-> 0 <= i < Z.of_nat n.
Proof.
  unfold iota. rewrite in_map_iff. split.
  - intros [k [<- Hk]]. apply in_seq in Hk. lia.
  - intros H. exists (Z.to_nat i). split; [lia|]. apply in_seq. lia.
Qed.


Lemma handler_put (env : Env) (userEmail jobId : string) (fileIndex : Z)
  (formData : FormData) (s : Store) :
  run (handler env (PutFile userEmail jobId fileIndex formData)) s
  = if fileIndex <? 0
    then (inr (json (ParamIssues ["fileIndex"%string]) 400), s, [])
    else run (uploadFile env userEmail jobId fileIndex formData) s.
Proof. simpl. unfold param_issues. now destruct (fileIndex <? 0). Qed.



(** ** Resuming an interrupted session *)

(** One upload call per listed index, each with a file and a blob store that
    accepts it. *)
Definition upload_each (env : Env) (userEmail jobId : string) (file_of : Z -> Bytes)
  (indices : list Z) (s : Store) : Store :=
  fold_left (fun s' i => serve env (PutFile userEmail jobId i (form_of (file_of i))) s')
    indices s.

Definition pending_index (jobId : string) (s : Store) (i : Z) : Prop :=
  In i (map JobFiles.file_index (select_pending jobId s)).

Lemma pending_index_row (jobId : string) (s : Store) (i : Z) :
  pending_index jobId s i <->
  exists f, In f (job_files s) /\ pending_slot jobId i f = true.
Proof.
  unfold pending_index, select_pending. rewrite in_map_iff. split.
  - intros [f [E Hf]]. apply filter_In in Hf. destruct Hf as [Hf Hc].
    apply andb_true_iff in Hc. destruct Hc as [E1 E2].
    exists f. split; [exact Hf|]. unfold pending_slot. now rewrite E1, E2, E, Z.eqb_refl.
  - intros [f [Hf Hp]]. apply pending_slot_true in Hp. destruct Hp as [E1 [E2 E3]].
    exists f. split; [exact E2|]. apply filter_In. split; [exact Hf|].
    now rewrite E1, E3, !String.eqb_refl.
Qed.

Lemma pending_index_nonneg (jobId : string) (s : Store) (i : Z) :
  Consistent s -> pending_index jobId s i -> 0 <= i.
Proof.
  intros C Hi. unfold pending_index in Hi. rewrite select_pending_of_job in Hi.
  apply in_map_iff in Hi. destruct Hi as [f [<- Hf]]. apply filter_In in Hf.
  destruct Hf as [Hf _].
  assert (H : In (JobFiles.file_index f) (map JobFiles.file_index (files_of jobId s)))
    by now apply in_map.
  rewrite (files_indexed s C) in H. apply in_iota in H. lia.
Qed.

Lemma files_of_uploaded_length (jobId jid : string) (fileIndex : Z) (key : string)
  (file : Bytes) (s : Store) :
  length (files_of jid (uploaded_store jobId fileIndex key file s))
  = length (files_of jid s).
Proof.
  rewrite (files_of_flip jobId jid fileIndex s (uploaded_store jobId fileIndex key file s)
             eq_refl).
  apply length_update_where.
Qed.

(** What the owner of a draft keeps of the job through an upload call. *)
Definition same_draft (j j' : Jobs.row) : Prop :=
  Jobs.id j' = Jobs.id j /\ Jobs.user_email j' = Jobs.user_email j
  /\ Jobs.status j' = "draft"%string /\ Jobs.total_files j' = Jobs.total_files j.

(** An upload by the owner of a draft takes its index off the pending ones
    and adds none; the job keeps its rows. *)
Lemma upload_clears_index (env : Env) (s : Store) (j : Jobs.row) (a : Z) (file : Bytes) :
  Consistent s -> In j (jobs s) -> Jobs.status j = "draft"%string ->
  bucket_put_resolves env = true ->
  let s' := serve env (PutFile (Jobs.user_email j) (Jobs.id j) a (form_of file)) s in
  Consistent s'
  /\ (exists j', In j' (jobs s') /\ same_draft j j')
  /\ length (files_of (Jobs.id j) s') = length (files_of (Jobs.id j) s)
  /\ (forall i, pending_index (Jobs.id j) s' i -> pending_index (Jobs.id j) s i /\ i <> a).
Proof.
  intros C Hj Hdraft Hput s'.
  split; [apply serve_consistent; exact C|].
  unfold s', serve. rewrite handler_put.
  destruct (a <? 0) eqn:Hneg.
  { apply Z.ltb_lt in Hneg. unfold store_of. simpl. split; [|split; [reflexivity|]].
    - exists j. unfold same_draft. auto.
    - intros i Hi. split; [exact Hi|].
      pose proof (pending_index_nonneg _ s i C Hi). lia. }
  rewrite uploadFile_run. rewrite Hput.
  destruct (select_fileRow (Jobs.id j) a (Jobs.user_email j) s) as [fr|] eqn:Hsel.
  - simpl. unfold store_of. simpl. split; [|split].
    + destruct (select_fileRow_inv _ _ _ _ _ Hsel) as [Hfr [E1 [E2 _]]].
      rewrite <- E2.
      destruct (uploaded_job_row s j fr file C Hj Hfr E1) as [Hj' _].
      eexists. split; [exact Hj'|]. unfold same_draft. simpl. auto.
    + apply files_of_uploaded_length.
    + intros i Hi. apply pending_index_row in Hi. destruct Hi as [g' [Hg' Hp']].
      simpl in Hg'. unfold flip_slot, update_where in Hg'. apply in_map_iff in Hg'.
      destruct Hg' as [g [<- Hg]].
      destruct (pending_slot (Jobs.id j) a g) eqn:Hga.
      * rewrite set_uploaded_not_pending in Hp'. discriminate.
      * split; [apply pending_index_row; now exists g|].
        intros ->. congruence.
  - unfold store_of. simpl. split; [|split; [reflexivity|]].
    + exists j. unfold same_draft. auto.
    + intros i Hi. split; [exact Hi|]. intros ->.
      apply pending_index_row in Hi. destruct Hi as [g [Hg Hp]].
      apply pending_slot_true in Hp. destruct Hp as [E1 [E2 _]].
      apply (select_fileRow_found s j g Hj Hg E1 Hdraft). now rewrite E2.
Qed.

Lemma upload_each_clears (env : Env) (file_of : Z -> Bytes) (indices : list Z) :
  bucket_put_resolves env = true ->
  forall (s : Store) (j : Jobs.row),
    Consistent s -> In j (jobs s) -> Jobs.status j = "draft"%string ->
    (forall i, pending_index (Jobs.id j) s i -> In i indices) ->
    let s' := upload_each env (Jobs.user_email j) (Jobs.id j) file_of indices s in
    Consistent s'
    /\ select_pending (Jobs.id j) s' = []
    /\ length (files_of (Jobs.id j) s') = length (files_of (Jobs.id j) s)
    /\ exists j', In j' (jobs s') /\ same_draft j j'.
Proof.
  intros Hput. induction indices as [|a l IH]; intros s j C Hj Hdraft Hcover; simpl.
  - split; [exact C|]. split; [|split; [reflexivity|exists j; unfold same_draft; auto]].
    destruct (select_pending (Jobs.id j) s) as [|f t] eqn:E; [reflexivity|].
    exfalso. apply (Hcover (JobFiles.file_index f)).
    unfold pending_index. rewrite E. now left.
  - destruct (upload_clears_index env s j a (file_of a) C Hj Hdraft Hput)
      as [C' [[j' [Hj' [Eid [Eu [Hd' Et]]]]] [Hlen Hclear]]].
    assert (Hcover' : forall i,
              pending_index (Jobs.id j')
                (serve env (PutFile (Jobs.user_email j) (Jobs.id j) a (form_of (file_of a))) s)
                i -> In i l).
    { rewrite Eid. intros i Hi. destruct (Hclear i Hi) as [Hold Hne].
      destruct (Hcover i Hold) as [->|Hin]; [contradiction|exact Hin]. }
    pose proof (IH _ j' C' Hj' Hd' Hcover') as H. cbv zeta in H.
    rewrite Eid, Eu in H. destruct H as [H1 [H2 [H3 [j'' [Hj'' Hsame]]]]].
    split; [exact H1|]. split; [exact H2|]. split; [now rewrite H3|].
    exists j''. split; [exact Hj''|]. unfold same_draft in *.
    destruct Hsame as [S1 [S2 [S3 S4]]]. repeat split; congruence.
Qed.

(** X12.  For a draft job [j] in a store the service reaches: after one
    upload call by its owner for each index of a list that holds every pending
    index of the job (in any order, with repetitions or indices that are not
    pending or not registered), each with a file and a blob store that accepts
    it, no index of the job is pending.  The list that get-status returns is
    such a list.  When the job has its JobFile rows (the batch of its
    registration completed), the owner's submit then answers 200.  When it has
    none (the batch was rejected) and [total_files] is not 0, no index is
    pending either and submit throws the 400 [Not all files have been uploaded
    yet.]: such a job cannot be completed. *)
Theorem resume_then_submit
  (env : Env) (file_of : Z -> Bytes) (indices : list Z) (s : Store) (j : Jobs.row) :
  Served s -> In j (jobs s) -> Jobs.status j = "draft"%string ->
  bucket_put_resolves env = true ->
  (forall i, pending_index (Jobs.id j) s i -> In i indices) ->
  let s' := upload_each env (Jobs.user_email j) (Jobs.id j) file_of indices s in
  let r := run (submitJob (Jobs.user_email j) (Jobs.id j)) s' in
  select_pending (Jobs.id j) s' = []
  /\ (files_of (Jobs.id j) s <> [] ->
      outcome_of r = inr (json (SubmitJobResponse (Jobs.id j)) 200))
  /\ (files_of (Jobs.id j) s = [] -> Jobs.total_files j <> 0 ->
      r = (inl not_all_uploaded, s', [])).
Proof.
  intros HS Hj Hdraft Hput Hcover s' r.
  destruct (upload_each_clears env file_of indices Hput s j
              (Served_Consistent s HS) Hj Hdraft Hcover)
    as [C' [Hnone [Hlen [j' [Hj' [Eid [Eu [Hd' Et]]]]]]]].
  fold s' in C', Hnone, Hlen, Hj'. split; [exact Hnone|].
  assert (Hrun : r = if Jobs.uploaded_files j' <? Jobs.total_files j'
                     then (inl not_all_uploaded, s', [])
                     else (inr (json (SubmitJobResponse (Jobs.id j)) 200),
                           with_jobs (update_where (has_id (Jobs.id j))
                                        (Jobs.set_status "pending") (jobs s')) s',
                           [DbRun (UpdateJobStatus (Jobs.id j) "pending")
                              (changes_where (has_id (Jobs.id j)) (jobs s'))])).
  { unfold r. rewrite submitJob_run. rewrite <- Eid at 1. rewrite <- Eu.
    rewrite (select_job_of_owner s' j' (ids_unique s' C') Hj'), Hd'. reflexivity. }
  pose proof (pending_count s' j' C' Hj') as Hn. rewrite Eid, Hnone in Hn. simpl in Hn.
  pose proof (total_counted s' C' j' Hj') as Hpos.
  split.
  - intros Hrows.
    assert (Hrows' : files_of (Jobs.id j') s' <> []).
    { rewrite Eid. intros E. rewrite E in Hlen. destruct (files_of (Jobs.id j) s);
        [now apply Hrows|discriminate]. }
    destruct (files_total s' C' j' Hj') as [E|E]; [contradiction|].
    rewrite Eid in E.
    assert (Hlt : (Jobs.uploaded_files j' <? Jobs.total_files j') = false)
      by (apply Z.ltb_ge; lia).
    rewrite Hrun, Hlt. reflexivity.
  - intros Hnorows Htotal. rewrite Hnorows in Hlen. simpl in Hlen.
    assert (Hlt : (Jobs.uploaded_files j' <? Jobs.total_files j') = true)
      by (apply Z.ltb_lt; lia).
    now rewrite Hrun, Hlt.
Qed.

Lemma resume_then_submit_witness :
  outcome_of
    (run (submitJob owner "job-1")
       (upload_each env_ok owner "job-1" (fun _ => [x01]) [2; 0; -1; 1; 1] drafted))
  = inr (json (SubmitJobResponse "job-1") 200)
  /\ outcome_of (run (submitJob owner "job-1") job_alone) = inl not_all_uploaded.
Proof.
  pose proof (resume_then_submit env_ok (fun _ => [x01]) [2; 0; -1; 1; 1] drafted
                (job1 "draft" 0)) as H.
  pose proof (resume_then_submit env_ok (fun _ => [x01]) [] job_alone
                (job1 "draft" 0)) as H'.
  cbv zeta in H, H'. split.
  - destruct H as [_ [H _]].
    + exact (Reach_Served drafted Reach_drafted).
    + vm_compute. left. reflexivity.
    + reflexivity.
    + reflexivity.
    + intros i Hi. vm_compute in Hi. vm_compute. tauto.
    + apply H. vm_compute. discriminate.
  - destruct H' as [_ [_ H']].
    + exact Served_job_alone.
    + vm_compute. left. reflexivity.
    + reflexivity.
    + reflexivity.
    + intros i Hi. vm_compute in Hi. destruct Hi.
    + exact (f_equal (fun x => fst (fst x)) (H' eq_refl ltac:(discriminate))).
Defined.

(** * The bearer token in front of the job routes

    [src/middleware/auth.ts] (the guard of [/jobs/*]), the admin guard of the
    same shape, and the payloads the auth routes sign.  Signing and verifying
    are hono/jwt's: [verify] is a parameter, and a payload is the value it
    returns. *)

Module Jwt.

(** A JavaScript value as far as the guards look at it; numbers are the
    integers of the time claims. *)
#[local] Unset Elimination Schemes.
Inductive JsValue : Type :=
| JsUndefined
| JsNull
| JsBoolean (b : bool)
| JsNumber (n : Z)
| JsString (s : string)
| JsObject (properties : list (string * JsValue))
| JsArray (items : list JsValue).
#[local] Set Elimination Schemes.

Inductive JsType : Type := t_undefined | t_object | t_boolean | t_number | t_string.

(** [typeof value] *)
Definition typeof (v : JsValue) : JsType :=
  match v with
  | JsUndefined => t_undefined
  | JsNull | JsObject _ | JsArray _ => t_object
  | JsBoolean _ => t_boolean
  | JsNumber _ => t_number
  | JsString _ => t_string
  end.

Definition is_type (t : JsType) (v : JsValue) : bool :=
  match t, typeof v with
  | t_undefined, t_undefined | t_object, t_object | t_boolean, t_boolean
  | t_number, t_number | t_string, t_string => true
  | _, _ => false
  end.

(** [(value as Record<string, unknown>).key]: the property of an object, and
    [undefined] on anything that has no such property. *)
Definition prop (key : string) (v : JsValue) : JsValue :=
  match v with
  | JsObject properties =>
      match find (fun kv => String.eqb (fst kv) key) properties with
      | Some kv => snd kv
      | None => JsUndefined
      end
  | _ => JsUndefined
  end.

Definition is_null (v : JsValue) : bool :=
  match v with
  | JsNull => true
  | _ => false
  end.

(** [value === 'text'] *)
Definition is_string (text : string) (v : JsValue) : bool :=
  match v with
  | JsString s => String.eqb s text
  | _ => false
  end.

(** [isJwtPayload], [src/middleware/auth.ts]. *)
Definition isJwtPayload (value : JsValue) : bool :=
  is_type t_object value
  && negb (is_null value)
  && is_type t_string (prop "sub" value)
  && is_type t_string (prop "name" value)
  && is_type t_number (prop "iat" value)
  && is_type t_number (prop "exp" value).

(** [isAdminJwtPayload], the guard of the admin middleware. *)
Definition isAdminJwtPayload (value : JsValue) : bool :=
  is_type t_object value
  && negb (is_null value)
  && is_type t_string (prop "sub" value)
  && is_type t_string (prop "name" value)
  && is_string "admin" (prop "type" value)
  && is_type t_number (prop "iat" value)
  && is_type t_number (prop "exp" value).

(** The payloads of [buildAccessToken] and [buildRefreshToken]
    ([src/routes/auth.ts]) and of [buildAdminAccessToken] and
    [buildAdminRefreshToken] ([src/routes/adminAuth.ts]); [now] is
    [Math.floor(Date.now() / 1000)]. *)
Definition access_payload (email name : string) (now : Z) : JsValue :=
  JsObject [("sub"%string, JsString email); ("name"%string, JsString name);
            ("type"%string, JsString "access"); ("iat"%string, JsNumber now);
            ("exp"%string, JsNumber (now + 60 * 15))].

Definition refresh_payload (email : string) (now : Z) : JsValue :=
  JsObject [("sub"%string, JsString email); ("type"%string, JsString "refresh");
            ("iat"%string, JsNumber now);
            ("exp"%string, JsNumber (now + 60 * 60 * 24 * 7))].

Definition admin_access_payload (email name : string) (now : Z) : JsValue :=
  JsObject [("sub"%string, JsString email); ("name"%string, JsString name);
            ("type"%string, JsString "admin"); ("iat"%string, JsNumber now);
            ("exp"%string, JsNumber (now + 60 * 15))].

Definition admin_refresh_payload (email : string) (now : Z) : JsValue :=
  JsObject [("sub"%string, JsString email); ("type"%string, JsString "admin-refresh");
            ("iat"%string, JsNumber now);
            ("exp"%string, JsNumber (now + 60 * 60 * 24 * 7))].

(** [s.startsWith(prefix)] and [s.slice(n)]. *)
Definition startsWith (prefix s : string) : bool := String.prefix prefix s.

Fixpoint slice (n : nat) (s : string) : string :=
  match n, s with
  | O, _ => s
  | S n', String _ s' => slice n' s'
  | S _, EmptyString => EmptyString
  end.

Definition no_bearer : Exn :=
  HTTPException 401 "Missing or malformed Authorization header.".

Definition bad_token : Exn := HTTPException 401 "Invalid or expired token.".

Definition bad_payload : Exn := HTTPException 401 "Invalid token payload.".

Section Middleware.
(** [verify(token, secret, 'HS256')] of hono/jwt at the time of the request:
    the payload, or [None] when it throws. *)
Variable verify : string -> string -> option JsValue.

(** The middleware up to [next()]: what it throws, or the payload it stores in
    [c.var]. *)
Definition check_bearer (guard : JsValue -> bool) (authorization : option string)
  (secret : string) : Exn + JsValue :=
  match authorization with
  | None => inl no_bearer
  | Some header =>
      if negb (startsWith "Bearer " header) then inl no_bearer
      else
        let token := slice 7 header in
        match verify token secret with
        | None => inl bad_token
        | Some raw => if negb (guard raw) then inl bad_payload else inr raw
        end
  end.

Definition authenticate : option string -> string -> Exn + JsValue :=
  check_bearer isJwtPayload.

Definition authenticateAdmin : option string -> string -> Exn + JsValue :=
  check_bearer isAdminJwtPayload.

(** [const { sub: userEmail } = c.var.jwtPayload] *)
Definition sub_of (jwtPayload : JsValue) : string :=
  match prop "sub" jwtPayload with
  | JsString s => s
  | _ => EmptyString
  end.

(** A job route behind [jobsRouter.use('/jobs/*', authenticate)]: the request
    is the route's with the caller still to be filled in. *)
Definition jobs_route (env : Env) (authorization : option string) (secret : string)
  (request : string -> Request) : M Response :=
  match authenticate authorization secret with
  | inl e => throw e
  | inr jwtPayload => handler env (request (sub_of jwtPayload))
  end.

Lemma startsWith_slice (prefix s : string) :
  startsWith prefix s = true -> s = (prefix ++ slice (String.length prefix) s)%string.
Proof.
  unfold startsWith. revert s. induction prefix as [|a p IH]; intros s.
  - now destruct s.
  - destruct s as [|b s]; simpl; [discriminate|].
    destruct (ascii_dec a b) as [<-|]; intros H; [|discriminate H].
    now rewrite <- (IH s H).
Qed.

Lemma startsWith_append (prefix rest : string) :
  startsWith prefix (prefix ++ rest) = true
  /\ slice (String.length prefix) (prefix ++ rest) = rest.
Proof.
  unfold startsWith. induction prefix as [|a p [IH1 IH2]]; simpl.
  - split; [now destruct rest|reflexivity].
  - destruct (ascii_dec a a); [|contradiction]. auto.
Qed.

(** X13.  [authenticate] lets a request through exactly when the
    Authorization header is [Bearer ] followed by a token that [verify]
    accepts with a payload holding a string [sub], a string [name] and numbers
    [iat] and [exp]; the payload it stores is that one.  Otherwise the job
    route throws a 401, leaves the store as it was and writes nothing. *)
Theorem authenticate_lets_through (authorization : option string) (secret : string) :
  (forall jwtPayload,
     authenticate authorization secret = inr jwtPayload <->
     exists token,
       authorization = Some ("Bearer " ++ token)%string
       /\ verify token secret = Some jwtPayload
       /\ isJwtPayload jwtPayload = true)
  /\ (forall env request s,
        (forall jwtPayload, authenticate authorization secret <> inr jwtPayload) ->
        exists message,
          run (jobs_route env authorization secret request) s
          = (inl (HTTPException 401 message), s, [])).
Proof.
  split.
  - intros jwtPayload. unfold authenticate, check_bearer. split.
    + intros H.
      destruct authorization as [header|]; [|discriminate H].
      destruct (startsWith "Bearer " header) eqn:Hp; [|discriminate H].
      cbv beta iota delta [negb] in H.
      destruct (verify (slice 7 header) secret) as [raw|] eqn:Hv; [|discriminate H].
      destruct (isJwtPayload raw) eqn:Hg; [|discriminate H].
      injection H as <-. exists (slice 7 header). repeat split; auto.
      f_equal. apply (startsWith_slice "Bearer " header Hp).
    + intros [token [-> [Hv Hg]]].
      destruct (startsWith_append "Bearer " token) as [Hp Hs].
      rewrite Hp. cbv beta iota delta [negb].
      change 7%nat with (String.length "Bearer "). rewrite Hs, Hv, Hg. reflexivity.
  - intros env request s Hno. unfold jobs_route.
    destruct (authenticate authorization secret) as [e|p] eqn:E.
    + exists (match e with HTTPException _ m => m | StoreFailure => EmptyString end).
      f_equal. f_equal. f_equal.
      unfold authenticate, check_bearer in E.
      destruct authorization as [header|]; [|now injection E as <-].
      destruct (startsWith "Bearer " header); cbv beta iota delta [negb] in E;
        [|now injection E as <-].
      destruct (verify (slice 7 header) secret) as [raw|]; [|now injection E as <-].
      destruct (isJwtPayload raw); [discriminate E|now injection E as <-].
    + now contradiction (Hno p).
Qed.

(** X14.  Which payload passes which guard, for every subject, name and time:
    - a payload accepted by the admin guard is accepted by the guard of the
      job routes, which does not look at [type]; so the payload of an admin
      access token passes both;
    - the payload of a user access token passes the guard of the job routes
      and not the admin guard;
    - the payloads of the two refresh tokens, which carry no [name], pass
      neither. *)
Theorem guards_and_payloads :
  (forall value, isAdminJwtPayload value = true -> isJwtPayload value = true)
  /\ (forall email name now,
        isJwtPayload (access_payload email name now) = true
        /\ isAdminJwtPayload (access_payload email name now) = false
        /\ isJwtPayload (admin_access_payload email name now) = true
        /\ isAdminJwtPayload (admin_access_payload email name now) = true
        /\ sub_of (access_payload email name now) = email)
  /\ (forall email now,
        isJwtPayload (refresh_payload email now) = false
        /\ isAdminJwtPayload (refresh_payload email now) = false
        /\ isJwtPayload (admin_refresh_payload email now) = false
        /\ isAdminJwtPayload (admin_refresh_payload email now) = false).
Proof.
  split; [|split].
  - intros value. unfold isAdminJwtPayload, isJwtPayload.
    rewrite !andb_true_iff. tauto.
  - intros email name now. repeat split.
  - intros email now. repeat split.
Qed.
End Middleware.
End Jwt.

(** * Passwords ([src/routes/auth.ts])

    [hashPassword] and [verifyPassword].  PBKDF2 and the text encoder are
    SubtleCrypto's and [TextEncoder]'s and are parameters; the hexadecimal
    text around them is modelled.  A string is a sequence of 8-bit
    characters. *)

Module Password.

Definition digit16 (d : nat) : ascii :=
  nth d ["0"; "1"; "2"; "3"; "4"; "5"; "6"; "7"; "8"; "9";
         "a"; "b"; "c"; "d"; "e"; "f"]%char "0"%char.

(** [b.toString(16)] for an element of a [Uint8Array]: one or two digits. *)
Definition toString16 (b : byte) : string :=
  let n := Byte.to_nat b in
  if (n <? 16)%nat then String (digit16 n) EmptyString
  else String (digit16 (n / 16)) (String (digit16 (n mod 16)) EmptyString).

(** [s.padStart(targetLength, padChar)] *)
Definition padStart (targetLength : nat) (padChar : ascii) (s : string) : string :=
  (string_of_list_ascii (repeat padChar (targetLength - String.length s)) ++ s)%string.

(** [Array.from(arr).map((b) => b.toString(16).padStart(2, '0')).join('')] *)
Definition toHex (arr : Bytes) : string :=
  String.concat "" (map (fun b => padStart 2 "0" (toString16 b)) arr).

(** [s.split(sep)] for a separator of one character. *)
Fixpoint split (sep : ascii) (s : string) : list string :=
  match s with
  | EmptyString => [EmptyString]
  | String c s' =>
      if Ascii.eqb c sep then EmptyString :: split sep s'
      else match split sep s' with
           | part :: parts => String c part :: parts
           | [] => [String c EmptyString]
           end
  end.

(** The characters [.] does not match. *)
Definition is_line_terminator (c : ascii) : bool :=
  Ascii.eqb c "010" || Ascii.eqb c "013".

(** [s.match(/.{2}/g)]: the matches from left to right; the empty list stands
    for [null]. *)
Fixpoint match_pairs (s : string) : list string :=
  match s with
  | String c1 ((String c2 rest) as tail) =>
      if is_line_terminator c1 || is_line_terminator c2 then match_pairs tail
      else String c1 (String c2 EmptyString) :: match_pairs rest
  | _ => []
  end.

Definition is_whitespace (c : ascii) : bool :=
  existsb (Ascii.eqb c) ["009"; "010"; "011"; "012"; "013"; " "; "160"]%char.

Fixpoint trimStart (s : string) : string :=
  match s with
  | String c s' => if is_whitespace c then trimStart s' else s
  | EmptyString => EmptyString
  end.

Definition hex_value (c : ascii) : option Z :=
  let n := Z.of_nat (nat_of_ascii c) in
  if (48 <=? n) && (n <=? 57) then Some (n - 48)
  else if (97 <=? n) && (n <=? 102) then Some (n - 87)
  else if (65 <=? n) && (n <=? 70) then Some (n - 55)
  else None.

Fixpoint hex_digits (s : string) : list Z :=
  match s with
  | String c s' =>
      match hex_value c with
      | Some d => d :: hex_digits s'
      | None => []
      end
  | EmptyString => []
  end.

(** [parseInt(s, 16)]: leading white space, a sign, a [0x] prefix, then the
    longest run of hexadecimal digits; [None] is [NaN]. *)
Definition parseInt16 (s : string) : option Z :=
  let s1 := trimStart s in
  let '(sign, s2) :=
    match s1 with
    | String "-" r => (-1, r)
    | String "+" r => (1, r)
    | _ => (1, s1)
    end in
  let s3 :=
    match s2 with
    | String "0" (String "x" r) | String "0" (String "X" r) => r
    | _ => s2
    end in
  match hex_digits s3 with
  | [] => None
  | ds => Some (sign * fold_left (fun acc d => acc * 16 + d) ds 0)
  end.

(** The element a [Uint8Array] stores for a number: [NaN] is 0, the others
    are taken modulo 256. *)
Definition toUint8 (v : option Z) : byte :=
  match v with
  | None => x00
  | Some z =>
      match Byte.of_nat (Z.to_nat (z mod 256)) with
      | Some b => b
      | None => x00
      end
  end.

(** [saltHex.match(/.{2}/g)!.map((b) => parseInt(b, 16))] as a [Uint8Array];
    [None] when [match] gives [null] and [.map] throws. *)
Definition fromHex (saltHex : string) : option Bytes :=
  match match_pairs saltHex with
  | [] => None
  | pairs => Some (map (fun b => toUint8 (parseInt16 b)) pairs)
  end.

Section Pbkdf2.
(** [encoder.encode(password)], and [deriveBits] with PBKDF2, SHA-256,
    100000 iterations and 256 bits, from the key material and the salt. *)
Variable encode : string -> Bytes.
Variable deriveBits : Bytes -> Bytes -> Bytes.

(** [hashPassword]; [salt] is [crypto.getRandomValues(new Uint8Array(16))]. *)
Definition hashPassword (salt : Bytes) (password : string) : string :=
  (toHex salt ++ ":" ++ toHex (deriveBits (encode password) salt))%string.

(** [verifyPassword]; [None] when it throws. *)
Definition verifyPassword (password storedHash : string) : option bool :=
  let parts := split ":" storedHash in
  let saltHex := nth 0 parts EmptyString in
  let expectedHex := nth_error parts 1 in
  match fromHex saltHex with
  | None => None
  | Some salt =>
      let derivedHex := toHex (deriveBits (encode password) salt) in
      Some match expectedHex with
           | Some expected => String.eqb derivedHex expected
           | None => false
           end
  end.
End Pbkdf2.

(** ** The hexadecimal text of bytes *)

Definition hex2 (b : byte) : string := padStart 2 "0" (toString16 b).

(** Two characters, neither a colon nor a line terminator, that read back as
    the byte. *)
Definition reads_back (b : byte) : bool :=
  match hex2 b with
  | String c1 (String c2 EmptyString) =>
      negb (Ascii.eqb c1 ":") && negb (Ascii.eqb c2 ":")
      && negb (is_line_terminator c1) && negb (is_line_terminator c2)
      && Byte.eqb (toUint8 (parseInt16 (hex2 b))) b
  | _ => false
  end.

Lemma hex2_reads_back (b : byte) : reads_back b = true.
Proof. destruct b; vm_compute; reflexivity. Qed.

Lemma hex2_shape (b : byte) :
  exists c1 c2,
    hex2 b = String c1 (String c2 EmptyString)
    /\ Ascii.eqb c1 ":" = false /\ Ascii.eqb c2 ":" = false
    /\ is_line_terminator c1 = false /\ is_line_terminator c2 = false
    /\ toUint8 (parseInt16 (hex2 b)) = b.
Proof.
  pose proof (hex2_reads_back b) as H. unfold reads_back in H.
  destruct (hex2 b) as [|c1 [|c2 [|c3 r]]] eqn:E; try discriminate.
  rewrite !andb_true_iff, !negb_true_iff in H.
  destruct H as [[[[H1 H2] H3] H4] H5].
  exists c1, c2. repeat split; auto.
  now apply Byte.byte_dec_bl.
Qed.

Lemma toHex_cons (b : byte) (arr : Bytes) : toHex (b :: arr) = (hex2 b ++ toHex arr)%string.
Proof.
  unfold toHex. simpl. fold (hex2 b).
  destruct (map (fun b0 => padStart 2 "0" (toString16 b0)) arr) eqn:E; simpl.
  - destruct (hex2_shape b) as [c1 [c2 [-> _]]]. reflexivity.
  - reflexivity.
Qed.

Lemma match_pairs_step (c1 c2 : ascii) (rest : string) :
  match_pairs (String c1 (String c2 rest))
  = if is_line_terminator c1 || is_line_terminator c2
    then match_pairs (String c2 rest)
    else String c1 (String c2 EmptyString) :: match_pairs rest.
Proof. reflexivity. Qed.

Lemma match_pairs_toHex (arr : Bytes) : match_pairs (toHex arr) = map hex2 arr.
Proof.
  induction arr as [|b arr IH]; [reflexivity|].
  rewrite toHex_cons. destruct (hex2_shape b) as [c1 [c2 [E [_ [_ [L1 [L2 _]]]]]]].
  rewrite E. change (String c1 (String c2 EmptyString) ++ toHex arr)%string
    with (String c1 (String c2 (toHex arr))).
  rewrite match_pairs_step, L1, L2. simpl. rewrite E. now rewrite IH.
Qed.

Fixpoint has_char (c : ascii) (s : string) : bool :=
  match s with
  | String c' s' => Ascii.eqb c' c || has_char c s'
  | EmptyString => false
  end.

Lemma split_whole (sep : ascii) (s : string) : has_char sep s = false -> split sep s = [s].
Proof.
  induction s as [|c s IH]; simpl; [reflexivity|].
  intros H. apply orb_false_iff in H. destruct H as [H1 H2].
  now rewrite H1, (IH H2).
Qed.

Lemma split_at_first (sep : ascii) (s t : string) :
  has_char sep s = false -> split sep (s ++ String sep t) = s :: split sep t.
Proof.
  induction s as [|c s IH]; simpl.
  - intros _. now rewrite Ascii.eqb_refl.
  - intros H. apply orb_false_iff in H. destruct H as [H1 H2].
    now rewrite H1, (IH H2).
Qed.

Lemma toHex_no_colon (arr : Bytes) : has_char ":" (toHex arr) = false.
Proof.
  induction arr as [|b arr IH]; [reflexivity|].
  rewrite toHex_cons. destruct (hex2_shape b) as [c1 [c2 [-> [H1 [H2 _]]]]].
  simpl. now rewrite H1, H2, IH.
Qed.

Lemma fromHex_toHex (arr : Bytes) : arr <> [] -> fromHex (toHex arr) = Some arr.
Proof.
  intros Hne. unfold fromHex. rewrite match_pairs_toHex.
  assert (H : forall l, map (fun b => toUint8 (parseInt16 b)) (map hex2 l) = l).
  { induction l as [|b l IH]; [reflexivity|]. simpl.
    destruct (hex2_shape b) as [_ [_ [_ [_ [_ [_ [_ ->]]]]]]]. now rewrite IH. }
  destruct arr as [|b arr]; [contradiction|].
  change (map hex2 (b :: arr)) with (hex2 b :: map hex2 arr). cbv beta iota.
  apply (f_equal Some (H (b :: arr))).
Qed.

Lemma toHex_length (arr : Bytes) : String.length (toHex arr) = (2 * length arr)%nat.
Proof.
  induction arr as [|b arr IH]; [reflexivity|].
  rewrite toHex_cons. destruct (hex2_shape b) as [c1 [c2 [-> _]]].
  simpl. rewrite IH. lia.
Qed.

(** X15.  The bytes written as hexadecimal text read back as themselves: for
    a non-empty array, the parse of [verifyPassword] applied to the text of
    [toHex] returns the array; the text has two characters per byte and no
    colon, so that the stored hash splits at its one colon. *)
Theorem hex_text_reads_back (arr : Bytes) :
  arr <> [] ->
  fromHex (toHex arr) = Some arr
  /\ String.length (toHex arr) = (2 * length arr)%nat
  /\ forall rest : Bytes,
       split ":" (toHex arr ++ ":" ++ toHex rest) = [toHex arr; toHex rest].
Proof.
  intros Hne. split; [now apply fromHex_toHex|]. split; [apply toHex_length|].
  intros rest.
  change (toHex arr ++ ":" ++ toHex rest)%string
    with (toHex arr ++ String ":" (toHex rest))%string.
  rewrite (split_at_first ":" _ _ (toHex_no_colon arr)).
  now rewrite (split_whole ":" _ (toHex_no_colon rest)).
Qed.

Lemma hex_text_reads_back_witness : fromHex (toHex [x00; x0a; xff]) = Some [x00; x0a; xff].
Proof.
  destruct (hex_text_reads_back [x00; x0a; xff]) as [H _]; [discriminate|exact H].
Defined.
(** ** A hash and the password it was made from *)

Lemma toHex_injective (a b : Bytes) : toHex a = toHex b -> a = b.
Proof.
  intros E. destruct a as [|x a], b as [|y b]; [reflexivity| | |].
  - pose proof (toHex_length (y :: b)) as H. rewrite <- E in H. discriminate.
  - pose proof (toHex_length (x :: a)) as H. rewrite E in H. discriminate.
  - pose proof (fromHex_toHex (x :: a) ltac:(discriminate)) as Ha.
    pose proof (fromHex_toHex (y :: b) ltac:(discriminate)) as Hb.
    rewrite E in Ha. congruence.
Qed.

Section HashAndVerify.
Variable encode : string -> Bytes.
Variable deriveBits : Bytes -> Bytes -> Bytes.

Lemma verify_hashed (salt : Bytes) (password other : string) :
  salt <> [] ->
  verifyPassword encode deriveBits other (hashPassword encode deriveBits salt password)
  = Some (String.eqb (toHex (deriveBits (encode other) salt))
            (toHex (deriveBits (encode password) salt))).
Proof.
  intros Hsalt. unfold verifyPassword, hashPassword.
  change (toHex salt ++ ":" ++ toHex (deriveBits (encode password) salt))%string
    with (toHex salt ++ String ":" (toHex (deriveBits (encode password) salt)))%string.
  rewrite (split_at_first ":" _ _ (toHex_no_colon salt)).
  rewrite (split_whole ":" _ (toHex_no_colon _)). simpl.
  now rewrite (fromHex_toHex salt Hsalt).
Qed.

(** X16.  A password verifies against the hash made from it, whatever the
    (non-empty) salt; another password verifies against that hash exactly when
    PBKDF2 derives the same bits from it under that salt; and verifying
    against such a hash never throws. *)
Theorem verify_after_hash (salt : Bytes) (password : string) :
  salt <> [] ->
  let storedHash := hashPassword encode deriveBits salt password in
  verifyPassword encode deriveBits password storedHash = Some true
  /\ (forall other,
        verifyPassword encode deriveBits other storedHash = Some true <->
        deriveBits (encode other) salt = deriveBits (encode password) salt)
  /\ (forall other, verifyPassword encode deriveBits other storedHash <> None).
Proof.
  intros Hsalt storedHash. unfold storedHash. split; [|split].
  - rewrite verify_hashed by exact Hsalt. now rewrite String.eqb_refl.
  - intros other. rewrite verify_hashed by exact Hsalt. split.
    + intros [= H]. apply String.eqb_eq in H. now apply toHex_injective.
    + intros ->. now rewrite String.eqb_refl.
  - intros other. rewrite verify_hashed by exact Hsalt. discriminate.
Qed.
End HashAndVerify.

Lemma verify_after_hash_witness :
  verifyPassword (fun _ => [x70]) (fun key salt => key ++ salt) "secret1234"
    (hashPassword (fun _ => [x70]) (fun key salt => key ++ salt) [x01; x02] "secret1234")
  = Some true.
Proof.
  pose proof (verify_after_hash (fun _ => [x70]) (fun key salt => key ++ salt) [x01; x02]
                "secret1234") as H.
  cbv zeta in H. destruct H as [H _]; [discriminate|exact H].
Defined.
End Password.

(** * Accounts ([src/routes/auth.ts], the routes with access and refresh tokens)

    The table [users] of [migrations/0001_create_users.sql] is a list of rows
    in rowid order; [email] is UNIQUE.  [sign] and [verify] are hono/jwt's and
    are parameters, as are the text encoder and PBKDF2. *)

Module Accounts.

Record UserRow : Type := mkUser
  { email : string;
    name : string;
    password_hash : string }.

Definition Users : Type := list UserRow.

(** What a route throws: an [HTTPException], or the [TypeError] of
    [verifyPassword] on a hash it cannot read. *)
Inductive Thrown : Type :=
| Http (status : Z) (message : string)
| TypeError.

Inductive AuthBody : Type :=
| SignupResponse (access_token refresh_token user_email user_name : string)
| LoginResponse (access_token refresh_token user_email user_name : string)
| RefreshResponse (access_token : string).

Record AuthResponse : Type := auth_json
  { auth_body : AuthBody;
    auth_code : Z }.

(** What a request takes from outside the handler. *)
Record AuthEnv : Type := mkAuthEnv
  { salt : Bytes;               (* [crypto.getRandomValues(new Uint8Array(16))] *)
    clock : nat -> Z;           (* the k-th [Math.floor(Date.now() / 1000)] of the request *)
    insert_resolves : bool }.   (* the INSERT fails for no reason of the table *)

Definition email_in_use : Thrown := Http 409 "Email is already in use.".

Definition create_failed : Thrown := Http 500 "Failed to create account.".

Definition invalid_login : Thrown := Http 401 "Invalid email or password.".

Definition invalid_refresh : Thrown := Http 401 "Invalid or expired refresh token.".

Definition invalid_type : Thrown := Http 401 "Invalid token type.".

Definition user_not_found : Thrown := Http 401 "User not found.".

(** [SELECT ... FROM users WHERE email = ?] with [.first()] *)
Definition select_user (e : string) (users : Users) : option UserRow :=
  first (filter (fun u => String.eqb (email u) e) users).

Section Routes.
Variable encode : string -> Bytes.
Variable deriveBits : Bytes -> Bytes -> Bytes.
Variable sign : Jwt.JsValue -> string -> string.
Variable verify : string -> string -> option Jwt.JsValue.

Definition buildAccessToken (e n secret : string) (now : Z) : string :=
  sign (Jwt.access_payload e n now) secret.

Definition buildRefreshToken (e secret : string) (now : Z) : string :=
  sign (Jwt.refresh_payload e now) secret.

(** POST /auth/signup *)
Definition signup (env : AuthEnv) (secret e n password : string) (users : Users)
  : (Thrown + AuthResponse) * Users :=
  let passwordHash := Password.hashPassword encode deriveBits (salt env) password in
  if negb (insert_resolves env) then (inl create_failed, users)
  else if existsb (fun u => String.eqb (email u) e) users then (inl email_in_use, users)
  else
    let access_token := buildAccessToken e n secret (clock env 0) in
    let refresh_token := buildRefreshToken e secret (clock env 1) in
    (inr (auth_json (SignupResponse access_token refresh_token e n) 201),
     users ++ [mkUser e n passwordHash]).

(** POST /auth/login *)
Definition login (env : AuthEnv) (secret e password : string) (users : Users)
  : Thrown + AuthResponse :=
  match select_user e users with
  | None => inl invalid_login
  | Some user =>
      match Password.verifyPassword encode deriveBits password (password_hash user) with
      | None => inl TypeError
      | Some false => inl invalid_login
      | Some true =>
          let access_token := buildAccessToken (email user) (name user) secret (clock env 0) in
          let refresh_token := buildRefreshToken (email user) secret (clock env 1) in
          inr (auth_json (LoginResponse access_token refresh_token (email user) (name user))
                 200)
      end
  end.

(** POST /auth/refresh *)
Definition refresh (env : AuthEnv) (secret refresh_token : string) (users : Users)
  : Thrown + AuthResponse :=
  match verify refresh_token secret with
  | None => inl invalid_refresh
  | Some p =>
      if negb (Jwt.is_string "refresh" (Jwt.prop "type" p))
         || negb (Jwt.is_type Jwt.t_string (Jwt.prop "sub" p))
      then inl invalid_type
      else
        match select_user (Jwt.sub_of p) users with
        | None => inl user_not_found
        | Some user =>
            inr (auth_json
                   (RefreshResponse
                      (buildAccessToken (email user) (name user) secret (clock env 0)))
                   200)
        end
  end.

(** The tables the sign-up route can build: the salt is 16 random bytes. *)
Inductive Signed : Users -> Prop :=
| Signed_empty : Signed []
| Signed_signup (users : Users) (env : AuthEnv) (secret e n password : string) :
    Signed users -> length (salt env) = 16%nat ->
    Signed (snd (signup env secret e n password users)).

Definition hashed (u : UserRow) : Prop :=
  exists (s : Bytes) (password : string),
    s <> [] /\ password_hash u = Password.hashPassword encode deriveBits s password.

Lemma select_user_absent (e : string) (users : Users) :
  ~ In e (map email users) -> select_user e users = None.
Proof.
  intros H. unfold select_user.
  now rewrite (key_absent_filter email String.eqb String.eqb_eq users e H).
Qed.

Lemma email_used_iff (e : string) (users : Users) :
  existsb (fun u => String.eqb (email u) e) users = true <-> In e (map email users).
Proof.
  rewrite existsb_exists, in_map_iff. split.
  - intros [u [Hu E]]. apply String.eqb_eq in E. eauto.
  - intros [u [E Hu]]. exists u. split; [exact Hu|]. now apply String.eqb_eq.
Qed.

Lemma select_user_appended (u : UserRow) (users : Users) :
  ~ In (email u) (map email users) -> select_user (email u) (users ++ [u]) = Some u.
Proof.
  intros H. unfold select_user. rewrite filter_app.
  rewrite (key_absent_filter email String.eqb String.eqb_eq users _ H). simpl.
  now rewrite String.eqb_refl.
Qed.

(** What a sign-up does to the [email] column, which is all of [users] that
    the job routes reach ([Served_signup]): one e-mail more when no row has
    it and the INSERT goes through, nothing otherwise. *)
Lemma signup_email_column (env : AuthEnv) (secret e n password : string) (users : Users) :
  map email (snd (signup env secret e n password users))
  = if insert_resolves env && negb (existsb (fun u => String.eqb (email u) e) users)
    then map email users ++ [e]
    else map email users.
Proof.
  unfold signup. destruct (insert_resolves env); simpl; [|reflexivity].
  destruct (existsb (fun u => String.eqb (email u) e) users); simpl; [reflexivity|].
  now rewrite map_app.
Qed.

(** X17.  Signing up with an email no row has, a non-empty salt and the
    INSERT going through answers 201 and appends the row; after that, logging
    in with that email and the same password answers 200 for that email and
    name, and logging in with a password from which PBKDF2 derives other bits
    throws the 401 [Invalid email or password.]. *)
Theorem signup_then_login
  (env : AuthEnv) (secret e n password : string) (users : Users) :
  ~ In e (map email users) -> insert_resolves env = true -> salt env <> [] ->
  let created := signup env secret e n password users in
  fst created
  = inr (auth_json
           (SignupResponse (buildAccessToken e n secret (clock env 0))
              (buildRefreshToken e secret (clock env 1)) e n) 201)
  /\ (forall env',
        login env' secret e password (snd created)
        = inr (auth_json
                 (LoginResponse (buildAccessToken e n secret (clock env' 0))
                    (buildRefreshToken e secret (clock env' 1)) e n) 200))
  /\ (forall env' other,
        deriveBits (encode other) (salt env) <> deriveBits (encode password) (salt env) ->
        login env' secret e other (snd created) = inl invalid_login).
Proof.
  intros Hnew Hins Hsalt created.
  assert (Hused : existsb (fun u => String.eqb (email u) e) users = false).
  { destruct (existsb (fun u => String.eqb (email u) e) users) eqn:E; [|reflexivity].
    apply email_used_iff in E. contradiction. }
  assert (E : created
              = (inr (auth_json
                        (SignupResponse (buildAccessToken e n secret (clock env 0))
                           (buildRefreshToken e secret (clock env 1)) e n) 201),
                 users ++ [mkUser e n
                             (Password.hashPassword encode deriveBits (salt env) password)])).
  { unfold created, signup. now rewrite Hins, Hused. }
  rewrite E. simpl fst. simpl snd.
  pose proof (select_user_appended
                (mkUser e n (Password.hashPassword encode deriveBits (salt env) password))
                users Hnew) as Hsel.
  simpl in Hsel.
  split; [reflexivity|]. split.
  - intros env'. unfold login. rewrite Hsel. simpl.
    rewrite (Password.verify_hashed encode deriveBits (salt env) password password Hsalt).
    now rewrite String.eqb_refl.
  - intros env' other Hother. unfold login. rewrite Hsel. simpl.
    rewrite (Password.verify_hashed encode deriveBits (salt env) password other Hsalt).
    destruct (String.eqb _ _) eqn:Eq; [|reflexivity].
    apply String.eqb_eq, Password.toHex_injective in Eq. contradiction.
Qed.

Lemma signed_invariant (users : Users) :
  Signed users -> NoDup (map email users) /\ Forall hashed users.
Proof.
  induction 1 as [|users env secret e n password _ [IHu IHh] Hsalt].
  - split; constructor.
  - unfold signup. destruct (negb (insert_resolves env)); [now split|].
    destruct (existsb (fun u => String.eqb (email u) e) users) eqn:E; [now split|].
    simpl. split.
    + rewrite map_app. apply NoDup_app; [exact IHu|repeat constructor; intros []|].
      intros a Ha [<-|[]]. apply email_used_iff in Ha. simpl in Ha. congruence.
    + apply Forall_app. split; [exact IHh|]. constructor; [|constructor].
      exists (salt env), password. split; [|reflexivity].
      intros Hnil. rewrite Hnil in Hsalt. discriminate.
Qed.

(** X18.  In every table the sign-up route can build, no two rows have the
    same email, and a sign-up with an email that a row has throws the 409
    [Email is already in use.] and leaves the table as it was. *)
Theorem signed_emails_unique (users : Users) :
  Signed users ->
  NoDup (map email users)
  /\ (forall env secret e n password,
        In e (map email users) -> insert_resolves env = true ->
        signup env secret e n password users = (inl email_in_use, users)).
Proof.
  intros HS. split; [apply (signed_invariant users HS)|].
  intros env secret e n password Hin Hins. unfold signup. rewrite Hins. simpl.
  apply email_used_iff in Hin. now rewrite Hin.
Qed.

(** X19.  On every table the sign-up route can build, a login either answers
    200 for the row with that email, or throws the one 401
    [Invalid email or password.]: the same for an email no row has and for a
    wrong password, and never the [TypeError] of an unreadable hash. *)
Theorem login_answers (users : Users) (env : AuthEnv) (secret e password : string) :
  Signed users ->
  login env secret e password users = inl invalid_login
  \/ exists user,
       In user users /\ email user = e
       /\ Password.verifyPassword encode deriveBits password (password_hash user) = Some true
       /\ login env secret e password users
          = inr (auth_json
                   (LoginResponse (buildAccessToken e (name user) secret (clock env 0))
                      (buildRefreshToken e secret (clock env 1)) e (name user)) 200).
Proof.
  intros HS. destruct (signed_invariant users HS) as [_ Hh].
  unfold login. destruct (select_user e users) as [user|] eqn:Hsel; [|now left].
  unfold select_user in Hsel. apply first_in in Hsel. apply filter_In in Hsel.
  destruct Hsel as [Hin Ee]. apply String.eqb_eq in Ee.
  rewrite Forall_forall in Hh. destruct (Hh user Hin) as [s [pw [Hs Ehash]]].
  rewrite Ehash.
  rewrite (Password.verify_hashed encode deriveBits s pw password Hs).
  destruct (String.eqb _ _) eqn:Eq; [|now left].
  right. exists user. rewrite Ehash.
  rewrite (Password.verify_hashed encode deriveBits s pw password Hs), Eq, Ee.
  repeat split; auto.
Qed.

Lemma select_user_inv (e : string) (users : Users) (user : UserRow) :
  select_user e users = Some user -> In user users /\ email user = e.
Proof.
  unfold select_user. intros H. apply first_in in H. apply filter_In in H.
  destruct H as [Hin E]. apply String.eqb_eq in E. auto.
Qed.

(** X20.  A refresh whose token [verify] accepts: with the payload of an
    access token or of an admin refresh token it throws the 401
    [Invalid token type.]; with the payload of a refresh token it answers 200
    with an access token for the subject and the name a row of the table has
    for it now, when a row has that email, and throws the 401
    [User not found.] when none has. *)
Theorem refresh_takes_refresh_tokens
  (env : AuthEnv) (secret token : string) (users : Users) (p : Jwt.JsValue) :
  verify token secret = Some p ->
  (forall e n t, p = Jwt.access_payload e n t ->
     refresh env secret token users = inl invalid_type)
  /\ (forall e t, p = Jwt.admin_refresh_payload e t ->
        refresh env secret token users = inl invalid_type)
  /\ (forall e t, p = Jwt.refresh_payload e t ->
        (~ In e (map email users) ->
         refresh env secret token users = inl user_not_found)
        /\ (In e (map email users) ->
            exists user,
              In user users /\ email user = e
              /\ refresh env secret token users
                 = inr (auth_json
                          (RefreshResponse
                             (buildAccessToken e (name user) secret (clock env 0)))
                          200))).
Proof.
  intros Hv. unfold refresh. rewrite Hv.
  split; [|split]; intros; subst p; try reflexivity.
  change (negb (Jwt.is_string "refresh" (Jwt.prop "type" (Jwt.refresh_payload e t)))
          || negb (Jwt.is_type Jwt.t_string (Jwt.prop "sub" (Jwt.refresh_payload e t))))
    with false.
  change (Jwt.sub_of (Jwt.refresh_payload e t)) with e. cbv iota. split.
  - intros Hno. now rewrite (select_user_absent e users Hno).
  - intros Hin. destruct (select_user e users) as [user|] eqn:Hsel.
    + destruct (select_user_inv e users user Hsel) as [Hu Ee].
      exists user. rewrite Ee. auto.
    + exfalso. unfold select_user in Hsel. apply in_map_iff in Hin.
      destruct Hin as [u [Eu Hu]].
      apply (first_filter_found (fun x => String.eqb (email x) e) users u Hu);
        [now apply String.eqb_eq|exact Hsel].
Qed.
End Routes.

Definition toy_sign (p : Jwt.JsValue) (secret : string) : string := Jwt.sub_of p.

Definition toy_env : AuthEnv := mkAuthEnv [x01; x02] (fun _ => 1700000000) true.

Definition toy_derive (key s : Bytes) : Bytes := key ++ s.

Definition toy_encode (password : string) : Bytes :=
  map byte_of_ascii (list_ascii_of_string password).

Lemma signup_then_login_witness :
  login toy_encode toy_derive toy_sign toy_env "k" "a@example.com" "secret1234"
    (snd (signup toy_encode toy_derive toy_sign toy_env "k" "a@example.com" "Ann"
            "secret1234" []))
  = inr (auth_json (LoginResponse "a@example.com" "a@example.com" "a@example.com" "Ann") 200).
Proof.
  pose proof (signup_then_login toy_encode toy_derive toy_sign toy_env "k" "a@example.com"
                "Ann" "secret1234" []) as H.
  cbv zeta in H. destruct H as [_ [H _]].
  - intros [].
  - reflexivity.
  - discriminate.
  - exact (H toy_env).
Defined.

Definition toy_salt16 : Bytes := repeat x07 16.

Definition one_user : Users :=
  snd (signup toy_encode toy_derive toy_sign (mkAuthEnv toy_salt16 (fun _ => 0) true)
         "k" "a@example.com" "Ann" "secret1234" []).

Lemma Signed_one_user : Signed toy_encode toy_derive toy_sign one_user.
Proof. apply Signed_signup; [apply Signed_empty|reflexivity]. Qed.

(** A second sign-up, on the table of the first. *)
Definition two_users : Users :=
  snd (signup toy_encode toy_derive toy_sign (mkAuthEnv (repeat x09 16) (fun _ => 0) true)
         "k" "b@example.com" "Bob" "hunter2hunter2" one_user).

Lemma Signed_two_users : Signed toy_encode toy_derive toy_sign two_users.
Proof. apply Signed_signup; [exact Signed_one_user|reflexivity]. Qed.

Lemma signed_emails_unique_witness :
  NoDup (map email two_users)
  /\ signup toy_encode toy_derive toy_sign toy_env "k" "b@example.com" "Bobby" "another-one"
       two_users
     = (inl email_in_use, two_users).
Proof.
  destruct (signed_emails_unique toy_encode toy_derive toy_sign two_users Signed_two_users)
    as [H1 H2].
  split; [exact H1|].
  apply H2; [vm_compute; right; left; reflexivity|reflexivity].
Defined.

(** A row whose [password_hash] has no salt: [verifyPassword] throws, and the
    login is neither of the two answers of X19.  No sign-up writes such a row. *)
Example login_unreadable_hash :
  login toy_encode toy_derive toy_sign toy_env "k" "a@example.com" "secret1234"
    [mkUser "a@example.com" "Ann" ":00"]
  = inl TypeError.
Proof. reflexivity. Qed.

Lemma login_answers_witness :
  (exists user,
     In user two_users /\ name user = "Ann"%string
     /\ Password.verifyPassword toy_encode toy_derive "secret1234" (password_hash user)
        = Some true
     /\ login toy_encode toy_derive toy_sign toy_env "k" "a@example.com" "secret1234" two_users
        = inr (auth_json
                 (LoginResponse
                    (buildAccessToken toy_sign "a@example.com" (name user) "k"
                       (clock toy_env 0))
                    (buildRefreshToken toy_sign "a@example.com" "k" (clock toy_env 1))
                    "a@example.com" (name user)) 200))
  /\ login toy_encode toy_derive toy_sign toy_env "k" "a@example.com" "hunter2hunter2" two_users
     = inl invalid_login.
Proof.
  split.
  - destruct (login_answers toy_encode toy_derive toy_sign two_users toy_env "k"
                "a@example.com" "secret1234" Signed_two_users)
      as [H|[user [Hin [He [Hv Hl]]]]]; [discriminate H|].
    exists user. split; [exact Hin|]. split; [|split; [exact Hv|exact Hl]].
    destruct Hin as [<-|[<-|[]]]; [reflexivity|discriminate He].
  - destruct (login_answers toy_encode toy_derive toy_sign two_users toy_env "k"
                "a@example.com" "hunter2hunter2" Signed_two_users)
      as [H|[user [Hin [He [Hv _]]]]]; [exact H|].
    destruct Hin as [<-|[<-|[]]]; [discriminate Hv|discriminate He].
Defined.

Definition toy_verify (token secret : string) : option Jwt.JsValue :=
  Some (Jwt.refresh_payload token 0).

Lemma refresh_takes_refresh_tokens_witness :
  refresh toy_sign toy_verify toy_env "k" "b@example.com" one_user = inl user_not_found.
Proof.
  pose proof (refresh_takes_refresh_tokens toy_sign toy_verify toy_env "k" "b@example.com"
                one_user (Jwt.refresh_payload "b@example.com" 0) eq_refl) as H.
  destruct H as [_ [_ H]]. destruct (H "b@example.com"%string 0 eq_refl) as [H1 _].
  apply H1. vm_compute. intros [H0|[]]. discriminate H0.
Defined.
End Accounts.
